(** * Ollama-OCR: the batch OCR client of [src/ocr_processor.py]

    A shallow embedding of [OCRProcessor] (path discovery, preprocessing,
    the request to the inference endpoint, post-processing, and the batch
    collection loop), followed by the properties the specification states
    about it.

    Python strings are modelled as [string] (the bytes of their UTF-8
    encoding), byte strings as [list byte], dictionaries as [gmap], and
    code that raises as a state-and-exception monad over the part of the
    world the processor touches (files on disk, requests sent). *)

From Stdlib Require Import Strings.String Strings.Ascii List Arith ZArith Lia.
From Stdlib Require Import Numbers.DecimalString Numbers.DecimalZ Numbers.DecimalPos.
From stdpp Require Import base option list strings gmap fin_maps sorting pretty stringmap.

Local Open Scope string_scope.
Local Open Scope nat_scope.
Local Open Scope list_scope.
Local Open Scope stdpp_scope.

Set Warnings "-clear-no-such-hyp,-register-all".

(** ** Python string primitives used by the source *)

Module PyStr.

(** [str.lower()] restricted to what the source asks of it: the test
    [image_path.lower().endswith('.pdf')].  Only [A]-[Z] lower to ASCII
    letters, so lowering the ASCII letters of the UTF-8 bytes decides the
    same test. *)
Definition lower_ascii (c : ascii) : ascii :=
  let n := nat_of_ascii c in
  if (65 <=? n)%nat && (n <=? 90)%nat then ascii_of_nat (n + 32) else c.

Fixpoint lower (s : string) : string :=
  match s with
  | EmptyString => EmptyString
  | String c s' => String (lower_ascii c) (lower s')
  end.

(** [s.startswith(p)] *)
Fixpoint startswith (s p : string) {struct p} : bool :=
  match p, s with
  | EmptyString, _ => true
  | String _ _, EmptyString => false
  | String a p', String b s' => if Ascii.eqb a b then startswith s' p' else false
  end.

(** [s[n:]] *)
Fixpoint drop (n : nat) (s : string) : string :=
  match n, s with
  | O, _ => s
  | S _, EmptyString => EmptyString
  | S n', String _ s' => drop n' s'
  end.

(** [s.endswith(suffix)] *)
Definition endswith (s suffix : string) : bool :=
  (String.length suffix <=? String.length s)%nat
  && String.eqb (drop (String.length s - String.length suffix) s) suffix.

(** [s.endswith((suffix1, suffix2, ...))] *)
Definition endswith_any (s : string) (suffixes : list string) : bool :=
  existsb (endswith s) suffixes.

(** [sep.join(parts)] *)
Fixpoint join (sep : string) (parts : list string) : string :=
  match parts with
  | [] => ""
  | [p] => p
  | p :: rest => p +:+ sep +:+ join sep rest
  end.

(** [s.split(sep)] for a one-character separator: [go] carries the piece
    being read, reversed. *)
Fixpoint split_go (sep : ascii) (acc : string) (s : string) : list string :=
  match s with
  | EmptyString => [String.rev acc]
  | String c s' =>
      if Ascii.eqb c sep then String.rev acc :: split_go sep EmptyString s'
      else split_go sep (String c acc) s'
  end.

Definition split (sep : ascii) (s : string) : list string :=
  split_go sep EmptyString s.

End PyStr.

(** ** [pathlib.Path] on a POSIX system *)

Module Pathlib.

(** A [PurePosixPath]: its root ([""], ["/"] or ["//"]) and its parts. *)
Record Path := mkPath { root : string; parts : list string }.

#[global] Instance Path_eq_dec : EqDecision Path.
Proof. solve_decision. Defined.

(** [posixpath.splitroot]: a path that starts with exactly two slashes
    keeps them, any other number of leading slashes is one root. *)
Definition splitroot (p : string) : string * string :=
  if negb (PyStr.startswith p "/") then ("", p)
  else if negb (PyStr.startswith (PyStr.drop 1 p) "/")
          || PyStr.startswith (PyStr.drop 2 p) "/"
       then ("/", PyStr.drop 1 p)
       else ("//", PyStr.drop 2 p).

(** [Path(s)]: empty and ["."] components are dropped. *)
Definition Path_of (s : string) : Path :=
  let '(r, rel) := splitroot s in
  mkPath r (filter (λ x, x ≠ "" ∧ x ≠ ".") (PyStr.split "/" rel)).

(** [str(path)] *)
Definition str (p : Path) : string :=
  let s := root p +:+ PyStr.join "/" (parts p) in
  if String.eqb s "" then "." else s.

(** [path / name], as [glob] builds the paths it yields. *)
Definition child (p : Path) (name : string) : Path :=
  mkPath (root p) (parts p ++ [name]).

End Pathlib.

(** ** Exceptions, and code that raises *)

(** The exception classes the processor's code paths can meet.  All of them
    derive from Python's [Exception]; [JSONDecodeError] is the one the source
    names in a handler of its own. *)
Inductive exn_class :=
| ValueError | JSONDecodeError | RuntimeError | OSError | HTTPError
| ConnectionError | TypeError | AttributeError | RecursionError | cv2_error.

Record exn := Exn { exn_cls : exn_class; exn_msg : string }.

#[global] Instance exn_class_eq_dec : EqDecision exn_class.
Proof. solve_decision. Defined.
#[global] Instance exn_eq_dec : EqDecision exn.
Proof. solve_decision. Defined.

(** [str(e)] *)
Definition str_exn (e : exn) : string := exn_msg e.

(** [except Exception] and [except json.JSONDecodeError] *)
Definition is_Exception (e : exn) : bool := true.
Definition is_JSONDecodeError (e : exn) : bool :=
  bool_decide (exn_cls e = JSONDecodeError).

Inductive outcome (A : Type) :=
| Returned (a : A)
| Raised (e : exn).
Arguments Returned {A} a.
Arguments Raised {A} e.

Definition bytes := list Byte.byte.

(** The request body of [requests.post(url, json=payload)]. *)
Record Payload := mkPayload {
  model : string;
  prompt : string;
  stream : bool;
  images : list string
}.

#[global] Instance Payload_eq_dec : EqDecision Payload.
Proof. solve_decision. Defined.

(** What the processor reads and changes outside itself: the files on disk
    (by path) and the requests it has issued to the endpoint, oldest first. *)
Record World := mkWorld {
  files : gmap string bytes;
  sent : list (string * Payload)
}.

Definition M (A : Type) : Type := World → outcome A * World.

Definition ret {A} (a : A) : M A := λ w, (Returned a, w).
Definition raise {A} (e : exn) : M A := λ w, (Raised e, w).
Definition bind {A B} (m : M A) (k : A → M B) : M B :=
  λ w, match m w with
       | (Returned a, w') => k a w'
       | (Raised e, w') => (Raised e, w')
       end.
Definition lift {A} (o : outcome A) : M A := λ w, (o, w).

(** [try: m  except <class> as e: h e] *)
Definition try_except {A} (m : M A) (catches : exn → bool) (h : exn → M A) : M A :=
  λ w, match m w with
       | (Returned a, w') => (Returned a, w')
       | (Raised e, w') => if catches e then h e w' else (Raised e, w')
       end.

Notation "'let*' x := m 'in' k" := (bind m (λ x, k))
  (at level 10, x pattern, m at level 100, k at level 200).
Notation "m ;;; k" := (bind m (λ _, k))
  (at level 100, k at level 200, right associativity).

(** ** The file system the processor writes to *)

Definition read_file (path : string) : M bytes :=
  λ w, match files w !! path with
       | Some b => (Returned b, w)
       | None => (Raised (Exn OSError ("[Errno 2] No such file or directory: '" +:+ path +:+ "'")), w)
       end.

Definition write_file (path : string) (b : bytes) : M unit :=
  λ w, (Returned tt, mkWorld (<[path := b]> (files w)) (sent w)).

(** [os.remove(path)] *)
Definition os_remove (path : string) : M unit :=
  λ w, match files w !! path with
       | Some _ => (Returned tt, mkWorld (delete path (files w)) (sent w))
       | None => (Raised (Exn OSError ("[Errno 2] No such file or directory: '" +:+ path +:+ "'")), w)
       end.

(** ** The HTTP response of the endpoint *)

(** [body] is what [response.json().get("response", "")] has to work with:
    decoding the body or looking the field up raises, or the body is an object
    whose ["response"] field, when present, holds the generated text. *)
Record Response := mkResponse {
  status_code : nat;
  reason : string;
  url : string;
  body : outcome (option string)
}.

(** [Response.raise_for_status()] of [requests]. *)
Definition raise_for_status (r : Response) : M unit :=
  if (400 <=? status_code r)%nat && (status_code r <? 500)%nat then
    raise (Exn HTTPError (pretty (status_code r) +:+ " Client Error: " +:+ reason r
                          +:+ " for url: " +:+ url r))
  else if (500 <=? status_code r)%nat && (status_code r <? 600)%nat then
    raise (Exn HTTPError (pretty (status_code r) +:+ " Server Error: " +:+ reason r
                          +:+ " for url: " +:+ url r))
  else ret tt.

(** [response.json().get("response", "")] *)
Definition response_text (r : Response) : M string :=
  match body r with
  | Returned (Some text) => ret text
  | Returned None => ret ""
  | Raised e => raise e
  end.

(** ** The libraries and the machine around the processor

    Everything [ocr_processor.py] calls but does not define: OpenCV,
    pdf2image, tempfile, base64, requests and json.  [image], [page] and
    [json] are the values those libraries hand back. *)
Record Env := mkEnv {
  image : Type;
  page : Type;
  json : Type;
  (** [os.name == 'nt'] and [kernel32.GetShortPathNameW] *)
  os_name_nt : bool;
  GetShortPathNameW : string → string;
  (** [pdf2image.convert_from_path] and [page.save(path, 'JPEG')] *)
  convert_from_path : string → World → outcome (list page);
  page_save_jpeg : page → outcome bytes;
  (** the name [tempfile.NamedTemporaryFile(suffix=..., delete=False)] picks *)
  temp_name : string → World → outcome string;
  (** [cv2.imdecode(np.frombuffer(b, np.uint8), cv2.IMREAD_COLOR)] *)
  imdecode : bytes → outcome (option image);
  cvtColor_BGR2GRAY : image → outcome image;
  (** [cv2.createCLAHE(clipLimit=2.0, tileGridSize=(8, 8)).apply] *)
  clahe_apply : image → outcome image;
  fastNlMeansDenoising : image → outcome image;
  (** [cv2.imwrite]: the encoded file, or [None] when it reports failure *)
  imwrite_jpg : image → outcome (option bytes);
  b64encode : bytes → string;
  requests_post : string → Payload → outcome Response;
  (** [json.loads] and [json.dumps(_, indent=2)] *)
  json_loads : string → outcome json;
  json_dumps : json → string
}.

(** ** The instruction templates of [process_image]

    The texts are the source's, byte for byte (a triple-quoted literal keeps
    its line breaks and indentation); [dq] stands for the double quotes inside
    them. *)

Definition dq : string := String (ascii_of_nat 34) EmptyString.

Definition prompt_markdown : string :=
  "请分析提供的图片内容，并以 Markdown 格式输出提取的文本，要求如下：
                - 使用简体中文输出所有文本内容。
                - 根据图片中的视觉层级结构，使用标题（#、##、###）表示不同层级的标题和章节。
                - 使用列表符号（-）表示列表，并保持原有的列表结构。
                - 对需要强调的内容使用 Markdown 格式（如加粗、斜体等）。
                - 如果图片中包含表格，请使用 Markdown 表格格式表示。
                - 尽可能保留图片中的文本层级、布局和格式。
                - 确保所有可见文本都被提取，包括部分被遮挡或旋转的文本。".

Definition prompt_text : string :=
  "请从提供的图片中提取所有可见文本，并以纯文本格式输出，要求如下：
                - 使用简体中文输出所有文本内容。
                - 尽可能保持原始的文本布局和换行格式。
                - 包括所有可见文本，即使部分文本被遮挡、旋转或使用非标准字体。
                - 不需要任何格式化或元数据，仅输出纯文本内容。
                - 确保提取的文本清晰、准确，避免 OCR 错误。".

Definition prompt_json : string :=
  "请从提供的图片中提取所有可见文本，并以 JSON 格式输出，要求如下：
                - 使用简体中文输出所有文本内容。
                - 将文本分组为逻辑部分（如标题、正文、页脚等），并使用描述性键名（如 " +:+ dq +:+
  "标题" +:+ dq +:+
  "、" +:+ dq +:+
  "正文" +:+ dq +:+
  "、" +:+ dq +:+
  "段落" +:+ dq +:+
  "、" +:+ dq +:+
  "表格" +:+ dq +:+
  "、" +:+ dq +:+
  "列表" +:+ dq +:+
  "）表示。
                - 保留内容的层级结构，反映图片中的视觉布局。
                - 如果图片中包含表格，请将其表示为嵌套数组，按行和列组织数据。
                - 确保 JSON 格式正确且缩进清晰，便于阅读。
                - 包括所有可见文本，即使部分文本被遮挡或旋转。
                - 如果图片中包含无法识别的内容，请标注为 `" +:+ dq +:+
  "无法识别" +:+ dq +:+
  "`。
                - 示例输出格式：
                ```json
                {
                  " +:+ dq +:+
  "标题" +:+ dq +:+
  ": " +:+ dq +:+
  "这是标题" +:+ dq +:+
  ",
                  " +:+ dq +:+
  "正文" +:+ dq +:+
  ": " +:+ dq +:+
  "这是正文内容" +:+ dq +:+
  ",
                  " +:+ dq +:+
  "表格" +:+ dq +:+
  ": [
                    [" +:+ dq +:+
  "列1" +:+ dq +:+
  ", " +:+ dq +:+
  "列2" +:+ dq +:+
  ", " +:+ dq +:+
  "列3" +:+ dq +:+
  "],
                    [" +:+ dq +:+
  "数据1" +:+ dq +:+
  ", " +:+ dq +:+
  "数据2" +:+ dq +:+
  ", " +:+ dq +:+
  "数据3" +:+ dq +:+
  "]
                  ],
                  " +:+ dq +:+
  "列表" +:+ dq +:+
  ": [" +:+ dq +:+
  "项目1" +:+ dq +:+
  ", " +:+ dq +:+
  "项目2" +:+ dq +:+
  ", " +:+ dq +:+
  "项目3" +:+ dq +:+
  "]
                }
                ".

Definition prompt_structured : string :=
  "请从提供的图片中提取所有可见文本，并以结构化格式输出，要求如下：
                - 使用简体中文输出所有文本内容。
                - 识别并格式化表格，保留表格中的行和列结构。
                - 提取有序或无序列表，并保持其嵌套层级。
                - 保留图片中的层级关系（如标题、子标题、段落等），并使用清晰的标签或缩进表示。
                - 包括所有可见文本，即使部分文本被遮挡或旋转。
                - 确保输出内容清晰、有条理，并尽量反映原始图片的视觉结构。
                - 如果图片中包含无法识别的内容，请标注为 `[无法识别]`。
                - 示例输出格式：
                标题: 这是标题
                正文: 这是正文内容
                表格:

                行1: 列1, 列2, 列3
                行2: 数据1, 数据2, 数据3
                列表:
                项目1
                项目2
                项目3
                ".

Definition prompt_key_value : string :=
  "请从提供的图片中提取所有以键值对形式出现的文本，并以键值对格式输出，要求如下：
                - 使用简体中文输出所有文本内容。
                - 识别标签（键）及其对应的值，即使它们在视觉上分离。
                - 提取表单字段及其内容，保留字段名称与值之间的对应关系。
                - 每个键值对以 " +:+ dq +:+
  "键: 值" +:+ dq +:+
  " 的格式输出，每行一个键值对。
                - 如果一个键对应多个值，请将值以逗号分隔的形式输出。
                - 包括所有可见的键值对，即使部分内容被遮挡或旋转。
                - 如果图片中包含无法识别的内容，请标注为 `[无法识别]`。
                - 示例输出格式：
                ".

(** The dictionary [prompts]. *)
Definition prompts : gmap string string :=
  list_to_map
    [ ("markdown", prompt_markdown);
      ("text", prompt_text);
      ("json", prompt_json);
      ("structured", prompt_structured);
      ("key_value", prompt_key_value) ].

(** [prompts.get(format_type, prompts["text"])] *)
Definition prompts_get (format_type : string) : string :=
  default (prompts !!! "text") (prompts !! format_type).

(** ** [class OCRProcessor] *)

(** [max_workers] sizes the thread pool, which takes a positive number. *)
Record OCRProcessor := mkOCRProcessor {
  model_name : string;
  base_url : string;
  max_workers : positive
}.

(** [OCRProcessor(model_name, max_workers)], with the defaults of [__init__]. *)
Definition OCRProcessor_init (model_name : option string) (max_workers : option positive)
  : OCRProcessor :=
  mkOCRProcessor (default "llama3.2-vision:11b" model_name)
                 "http://localhost:11434/api/generate"
                 (default 1%positive max_workers).

Section Processor.

Variable E : Env.
Variable self : OCRProcessor.

Definition _convert_to_short_path (long_path : string) : string :=
  if os_name_nt E then GetShortPathNameW E long_path else long_path.

Definition _read_image (image_path : string) : M (image E) :=
  try_except
    (let safe_path := _convert_to_short_path image_path in
     let* file_bytes := read_file safe_path in
     let* image := lift (imdecode E file_bytes) in
     match image with
     | None => raise (Exn ValueError ("无法读取图片文件: " +:+ image_path))
     | Some image => ret image
     end)
    is_Exception
    (λ e, raise (Exn RuntimeError
                  ("读取图片失败: " +:+ image_path +:+ ", 错误: " +:+ str_exn e))).

Definition _encode_image (image_path : string) : M string :=
  let* b := read_file image_path in
  ret (b64encode E b).

(** [with tempfile.NamedTemporaryFile(suffix=suffix, delete=False) as f:
    name = f.name]: the file is created empty and left on disk. *)
Definition NamedTemporaryFile (suffix : string) : M string :=
  let* name := (λ w, (temp_name E suffix w, w)) in
  write_file name [];;;
  ret name.

(** The handler of [_preprocess_image]; [image_path] is the value the
    variable holds when the exception arrives. *)
Definition preprocess_error (image_path : string) (e : exn) : exn :=
  Exn RuntimeError ("预处理图片时出错: " +:+ image_path +:+ ", 错误: " +:+ str_exn e).

(** Lines 64-72: the PDF branch.  It returns the new value of the
    variable [image_path], which is reassigned last. *)
Definition render_pdf (image_path : string) : M string :=
  if PyStr.endswith (PyStr.lower image_path) ".pdf" then
    let* pages := (λ w, (convert_from_path E image_path w, w)) in
    match pages with
    | [] => raise (Exn ValueError "无法将 PDF 转换为图片")
    | page0 :: _ =>
        let* temp_path := NamedTemporaryFile ".jpg" in
        let* jpeg := lift (page_save_jpeg E page0) in
        write_file temp_path jpeg;;;
        ret temp_path
    end
  else ret image_path.

(** Lines 75-92: read, grayscale, CLAHE, denoise, save. *)
Definition enhance (image_path : string) : M string :=
  let* image := _read_image image_path in
  let* gray := lift (cvtColor_BGR2GRAY E image) in
  let* enhanced := lift (clahe_apply E gray) in
  let* denoised := lift (fastNlMeansDenoising E enhanced) in
  let* preprocessed_path := NamedTemporaryFile ".jpg" in
  let* written := lift (imwrite_jpg E denoised) in
  match written with
  | Some jpeg => write_file preprocessed_path jpeg
  | None => ret tt
  end;;;
  ret preprocessed_path.

(** The source has one [try] around both parts and formats the variable
    [image_path] in its handler: the original path while the PDF branch
    runs, the rendered page's path afterwards. *)
Definition _preprocess_image (image_path : string) : M string :=
  let* image_path' :=
    try_except (render_pdf image_path) is_Exception
               (λ e, raise (preprocess_error image_path e)) in
  try_except (enhance image_path') is_Exception
             (λ e, raise (preprocess_error image_path' e)).

Definition post (payload : Payload) : M Response :=
  λ w, (requests_post E (base_url self) payload,
        mkWorld (files w) (sent w ++ [(base_url self, payload)])).

(** Lines 101-197, the [try] of [process_image] up to the endpoint's
    answer: preprocess, encode, clean up, build the request, send it, and
    read the generated text. *)
Definition request_text
    (image_path format_type : string) (preprocess : bool) : M string :=
  let* image_path :=
    (if preprocess then _preprocess_image image_path else ret image_path) in
  let* image_base64 := _encode_image image_path in
  (if PyStr.endswith_any image_path ["_preprocessed.jpg"; "_temp.jpg"]
   then os_remove image_path else ret tt);;;
  let prompt := prompts_get format_type in
  let payload := mkPayload (model_name self) prompt false [image_base64] in
  let* response := post payload in
  raise_for_status response;;;
  response_text response.

(** Lines 199-207: the JSON post-processing of the answer. *)
Definition post_process (format_type result : string) : M string :=
  if String.eqb format_type "json" then
    try_except
      (let* json_data := lift (json_loads E result) in
       ret (json_dumps E json_data))
      is_JSONDecodeError
      (λ _, ret result)
  else ret result.

(** The body of the [try] of [process_image]. *)
Definition process_image_body
    (image_path format_type : string) (preprocess : bool) : M string :=
  let* result := request_text image_path format_type preprocess in
  post_process format_type result.

Definition process_image
    (image_path format_type : string) (preprocess : bool) : M string :=
  try_except (process_image_body image_path format_type preprocess)
             is_Exception
             (λ e, ret ("处理图片时出错: " +:+ str_exn e)).

End Processor.

(** ** Directories, as [Path.is_dir] and [Path.glob] see them *)

(** A directory entry is a regular file or a directory with named entries, in
    the order the operating system lists them. *)
Inductive node :=
| File
| Dir (entries : list (string * node)).

(** The first argument of [process_batch]: [Union[str, List[str]]]. *)
Inductive batch_input :=
| Str (input_path : string)
| StrList (input_paths : list string).

Section Discovery.

Import Pathlib.

(** What a path resolves to on disk, if anything. *)
Variable disk : Path → option node.

Definition is_dir (p : Path) : bool :=
  match disk p with
  | Some (Dir _) => true
  | _ => false
  end.

(** The pattern ['*' + ext]: the entries of one directory whose name ends
    with [ext], whatever their kind. *)
Definition glob_star (base : Path) (entries : list (string * node)) (ext : string)
  : list Path :=
  map (λ e, child base (fst e))
      (filter (λ e, PyStr.endswith (fst e) ext = true) entries).

(** The pattern ['**/*' + ext]: the same in [base] and in every directory
    below it. *)
Fixpoint glob_starstar (base : Path) (n : node) (ext : string) : list Path :=
  match n with
  | File => []
  | Dir entries =>
      (glob_star base entries ext
       ++ (fix below (es : list (string * node)) : list Path :=
             match es with
             | [] => []
             | (name, sub) :: es' =>
                 glob_starstar (child base name) sub ext ++ below es'
             end) entries)%list
  end.

(** [base_path.glob(pattern)] for the two shapes of pattern the source
    builds. *)
Definition glob (base : Path) (pattern : string) : list Path :=
  match disk base with
  | Some (Dir entries) =>
      if PyStr.startswith pattern "**/*" then
        glob_starstar base (Dir entries) (PyStr.drop 4 pattern)
      else if PyStr.startswith pattern "*" then
        glob_star base entries (PyStr.drop 1 pattern)
      else []
  | _ => []
  end.

Definition extensions : list string := [".png"; ".jpg"; ".jpeg"; ".pdf"; ".tiff"].

(** Lines 222-232 of [process_batch]: the list [image_paths]. *)
Definition collect_paths (input_path : batch_input) (recursive : bool) : list Path :=
  match input_path with
  | Str input_path =>
      let base_path := Path_of input_path in
      if is_dir base_path then
        let pattern := if recursive then "**/*" else "*" in
        flat_map (λ ext, glob base_path (pattern +:+ ext)) extensions
      else [base_path]
  | StrList input_paths => map Path_of input_paths
  end.

End Discovery.

(** ** [process_batch] *)

Record Statistics := mkStatistics {
  total : nat;
  successful : nat;
  failed : nat
}.

Record BatchReport := mkBatchReport {
  results : gmap string string;
  errors : gmap string string;
  statistics : Statistics
}.

(** A future of the thread pool, once done: the path it was submitted for
    (the value of [future_to_path]), what [future.result()] does, and when it
    finished. *)
Record Future := mkFuture {
  future_path : Pathlib.Path;
  future_result : outcome string;
  future_done : nat
}.

Definition done_before (a b : Future) : Prop :=
  (future_done a ≤ future_done b)%nat.

#[global] Instance done_before_dec : RelDecision done_before.
Proof. intros a b. unfold done_before. apply _. Defined.

Section Batch.

Variable self : OCRProcessor.
Variable disk : Pathlib.Path → option node.
(** The [i]-th submitted call runs against its own view of the libraries
    and of the world, and finishes at time [finished i]: the scheduling of
    the pool of [max_workers self] threads is any such assignment. *)
Variable task_env : nat → Env.
Variable task_world : nat → World.
Variable finished : nat → nat.

(** [executor.submit(self.process_image, str(path), format_type, preprocess)] *)
Definition submit (format_type : string) (preprocess : bool)
    (i : nat) (path : Pathlib.Path) : Future :=
  mkFuture path
    (fst (process_image (task_env i) self (Pathlib.str path) format_type preprocess
                        (task_world i)))
    (finished i).

(** [concurrent.futures.as_completed]: every future once, in the order
    they finish. *)
Definition as_completed (futures : list Future) : list Future :=
  merge_sort done_before futures.

(** The body of the [for future in as_completed(...)] loop. *)
Definition record_future (acc : gmap string string * gmap string string) (future : Future)
  : gmap string string * gmap string string :=
  let path := future_path future in
  match future_result future with
  | Returned r => (<[Pathlib.str path := r]> (fst acc), snd acc)
  | Raised e => (fst acc, <[Pathlib.str path := str_exn e]> (snd acc))
  end.

Definition process_batch
    (input_path : batch_input) (format_type : string)
    (recursive preprocess : bool) : BatchReport :=
  let image_paths := collect_paths disk input_path recursive in
  let futures := imap (submit format_type preprocess) image_paths in
  let '(results, errors) := foldl record_future (∅, ∅) (as_completed futures) in
  mkBatchReport results errors
    (mkStatistics (length image_paths) (size results) (size errors)).

End Batch.


(** ** [ollama_ocr/app.py]: the wrapper the interface calls for one image *)

(** [process_single_image(processor, image_path, format_type,
    enable_preprocessing)]: the call of [processor.process_image] inside a
    [try] of its own, with the same handler. *)
Definition process_single_image (E : Env) (processor : OCRProcessor)
    (image_path format_type : string) (enable_preprocessing : bool) : M string :=
  try_except
    (process_image E processor image_path format_type enable_preprocessing)
    is_Exception
    (λ e, ret ("处理图片时出错: " +:+ str_exn e)).
(** * A reference environment

    One concrete choice of everything [Env] leaves open, used to run the
    processor on explicit inputs: Base64 as RFC 4648 defines it, a JSON codec
    for the values without floats, and image operations that act on the raw
    bytes. *)

Module Base64.

Definition alphabet : string :=
  "ABCDEFGHIJKLMNOPQRSTUVWXYZabcdefghijklmnopqrstuvwxyz0123456789+/".

Definition digit (n : N) : ascii :=
  default "="%char (String.get (N.to_nat n) alphabet).

(** Three bytes make four digits; one or two trailing bytes are padded. *)
Fixpoint encode_N (l : list N) : string :=
  match l with
  | a :: b :: c :: rest =>
      let n := (a * 65536 + b * 256 + c)%N in
      String (digit (n / 262144))
        (String (digit ((n / 4096) mod 64))
           (String (digit ((n / 64) mod 64))
              (String (digit (n mod 64)) (encode_N rest))))
  | [a; b] =>
      let n := (a * 65536 + b * 256)%N in
      String (digit (n / 262144))
        (String (digit ((n / 4096) mod 64))
           (String (digit ((n / 64) mod 64)) "="))
  | [a] =>
      let n := (a * 65536)%N in
      String (digit (n / 262144)) (String (digit ((n / 4096) mod 64)) "==")
  | [] => ""
  end.

Definition encode (b : bytes) : string := encode_N (map Byte.to_N b).

End Base64.

(** The codec prints as [json.dumps(v, indent=2, ensure_ascii=False)]
    does: two spaces per level, one item per line, [", "] never, [": "]
    after a key, and in strings only the quote, the backslash and the
    control characters escaped.  (With [ensure_ascii] left at its default,
    Python also writes the characters above 127 as [\u] escapes.)  It reads
    the JSON grammar for the same values; a number with a fraction or an
    exponent, and a [\u] escape above 127, are outside it. *)
Module Json.

(** The values [json.loads] builds, floats apart: [None], [bool], [int],
    [str], [list] and [dict] (an object's members in the order read). *)
Inductive value :=
| Null
| Bool (b : bool)
| Int (z : Z)
| Str (s : string)
| Arr (items : list value)
| Obj (members : list (string * value)).

Definition quote_char : ascii := ascii_of_nat 34.
Definition backslash : ascii := ascii_of_nat 92.

Definition hex_digit (n : nat) : ascii :=
  default "0"%char (String.get n "0123456789abcdef").

(** One character inside a string literal: the quote, the backslash and the
    control characters are escaped. *)
Definition escape (c : ascii) : string :=
  let n := nat_of_ascii c in
  if n =? 34 then String backslash (String quote_char "")
  else if n =? 92 then String backslash (String backslash "")
  else if n =? 10 then String backslash "n"
  else if n =? 13 then String backslash "r"
  else if n =? 9 then String backslash "t"
  else if n =? 8 then String backslash "b"
  else if n =? 12 then String backslash "f"
  else if n <? 32 then
    String backslash ("u00" +:+ String (hex_digit (n / 16)) (String (hex_digit (n mod 16)) ""))
  else String c "".

Fixpoint escape_string (s : string) : string :=
  match s with
  | EmptyString => ""
  | String c s' => escape c +:+ escape_string s'
  end.

Definition quote (s : string) : string :=
  String quote_char (escape_string s +:+ String quote_char "").

Definition print_Z (z : Z) : string := NilZero.string_of_int (Z.to_int z).

Fixpoint spaces (n : nat) : string :=
  match n with
  | O => ""
  | S n' => String " " (spaces n')
  end.

(** A line break and the indentation of nesting level [level]. *)
Definition newline (level : nat) : string :=
  String (ascii_of_nat 10) (spaces (2 * level)).

(** What follows the first item of a non-empty array or object: each
    further item after [sep], then [close]. *)
Definition more {A : Type} (print : A → string) (sep close : string)
  : list A → string :=
  fix go (l : list A) : string :=
    match l with
    | [] => close
    | y :: l' => sep +:+ print y +:+ go l'
    end.

(** [json.dumps(v, indent=2)] at nesting level [level]. *)
Fixpoint dumps_at (level : nat) (v : value) : string :=
  match v with
  | Null => "null"
  | Bool true => "true"
  | Bool false => "false"
  | Int z => print_Z z
  | Str s => quote s
  | Arr [] => "[]"
  | Arr (x :: xs) =>
      "[" +:+ newline (S level) +:+ dumps_at (S level) x
      +:+ more (dumps_at (S level)) ("," +:+ newline (S level))
               (newline level +:+ "]") xs
  | Obj [] => "{}"
  | Obj ((k, x) :: ms) =>
      "{" +:+ newline (S level) +:+ quote k +:+ ": " +:+ dumps_at (S level) x
      +:+ more (λ m, let '(k', y) := m in quote k' +:+ ": " +:+ dumps_at (S level) y)
               ("," +:+ newline (S level))
               (newline level +:+ "}") ms
  end.

Definition dumps (v : value) : string := dumps_at 0 v.

(** *** Reading *)

Definition is_ws (c : ascii) : bool :=
  let n := nat_of_ascii c in
  (n =? 32) || (n =? 9) || (n =? 10) || (n =? 13).

Fixpoint skip_ws (s : string) : string :=
  match s with
  | String c s' => if is_ws c then skip_ws s' else s
  | EmptyString => s
  end.

Definition hex_value (c : ascii) : option nat :=
  let n := nat_of_ascii c in
  if (48 <=? n) && (n <=? 57) then Some (n - 48)
  else if (97 <=? n) && (n <=? 102) then Some (n - 87)
  else if (65 <=? n) && (n <=? 70) then Some (n - 55)
  else None.

(** The inside of a string literal, after its opening quote: the text and
    what follows the closing quote.  A [\u] escape is read when it names an
    ASCII character. *)
Fixpoint read_string (s : string) : option (string * string) :=
  match s with
  | EmptyString => None
  | String c s' =>
      if Ascii.eqb c quote_char then Some ("", s')
      else if Ascii.eqb c backslash then
        match s' with
        | String e s'' =>
            let keep (c' : ascii) :=
              match read_string s'' with
              | Some (t, rest) => Some (String c' t, rest)
              | None => None
              end in
            if Ascii.eqb e quote_char then keep quote_char
            else if Ascii.eqb e backslash then keep backslash
            else if Ascii.eqb e "/" then keep "/"%char
            else if Ascii.eqb e "n" then keep (ascii_of_nat 10)
            else if Ascii.eqb e "r" then keep (ascii_of_nat 13)
            else if Ascii.eqb e "t" then keep (ascii_of_nat 9)
            else if Ascii.eqb e "b" then keep (ascii_of_nat 8)
            else if Ascii.eqb e "f" then keep (ascii_of_nat 12)
            else if Ascii.eqb e "u" then
              match s'' with
              | String h1 (String h2 (String h3 (String h4 s3))) =>
                  match hex_value h1, hex_value h2, hex_value h3, hex_value h4 with
                  | Some 0, Some 0, Some a, Some b =>
                      if a <? 8 then
                        match read_string s3 with
                        | Some (t, rest) => Some (String (ascii_of_nat (16 * a + b)) t, rest)
                        | None => None
                        end
                      else None
                  | _, _, _, _ => None
                  end
              | _ => None
              end
            else None
        | EmptyString => None
        end
      else if nat_of_ascii c <? 32 then None
      else match read_string s' with
           | Some (t, rest) => Some (String c t, rest)
           | None => None
           end
  end.

Definition is_digit (c : ascii) : bool :=
  let n := nat_of_ascii c in (48 <=? n) && (n <=? 57).

(** The longest run of digits at the start of [s], and the rest. *)
Fixpoint span_digits (s : string) : string * string :=
  match s with
  | String c s' =>
      if is_digit c then let '(d, rest) := span_digits s' in (String c d, rest)
      else ("", s)
  | EmptyString => ("", s)
  end.

(** An integer literal: an optional minus sign and digits without a
    leading zero; a fraction or an exponent is outside this codec. *)
Definition read_int (s : string) : option (Z * string) :=
  let '(sign, body) :=
    match s with
    | String c s' => if Ascii.eqb c "-" then ("-", s') else ("", s)
    | EmptyString => ("", s)
    end in
  let '(digits, rest) := span_digits body in
  match digits with
  | EmptyString => None
  | String d ds =>
      if Ascii.eqb d "0" && negb (String.eqb ds "") then None
      else if PyStr.startswith rest "." || PyStr.startswith rest "e"
              || PyStr.startswith rest "E" then None
      else match NilZero.int_of_string (sign +:+ digits) with
           | Some i => Some (Z.of_int i, rest)
           | None => None
           end
  end.

Definition literal (word : string) (v : value) (s : string) : option (value * string) :=
  if PyStr.startswith s word then Some (v, PyStr.drop (String.length word) s) else None.

(** A value at the start of [s] (no leading white space), and the rest.
    [fuel] bounds the nesting and the number of items read. *)
Fixpoint read_value (fuel : nat) (s : string) : option (value * string) :=
  match fuel with
  | O => None
  | S fuel' =>
      match s with
      | EmptyString => None
      | String c s' =>
          if Ascii.eqb c "n" then literal "null" Null s
          else if Ascii.eqb c "t" then literal "true" (Bool true) s
          else if Ascii.eqb c "f" then literal "false" (Bool false) s
          else if Ascii.eqb c quote_char then
            match read_string s' with
            | Some (t, rest) => Some (Str t, rest)
            | None => None
            end
          else if Ascii.eqb c "[" then
            match skip_ws s' with
            | String c1 s1 =>
                if Ascii.eqb c1 "]" then Some (Arr [], s1)
                else match read_items fuel' (String c1 s1) with
                     | Some (items, rest) => Some (Arr items, rest)
                     | None => None
                     end
            | EmptyString => None
            end
          else if Ascii.eqb c "{" then
            match skip_ws s' with
            | String c1 s1 =>
                if Ascii.eqb c1 "}" then Some (Obj [], s1)
                else match read_members fuel' (String c1 s1) with
                     | Some (members, rest) => Some (Obj members, rest)
                     | None => None
                     end
            | EmptyString => None
            end
          else match read_int s with
               | Some (z, rest) => Some (Int z, rest)
               | None => None
               end
      end
  end

(** One or more items, up to and including the closing bracket. *)
with read_items (fuel : nat) (s : string) : option (list value * string) :=
  match fuel with
  | O => None
  | S fuel' =>
      match read_value fuel' s with
      | Some (v, rest) =>
          match skip_ws rest with
          | String c s1 =>
              if Ascii.eqb c "," then
                match read_items fuel' (skip_ws s1) with
                | Some (vs, rest') => Some (v :: vs, rest')
                | None => None
                end
              else if Ascii.eqb c "]" then Some ([v], s1)
              else None
          | EmptyString => None
          end
      | None => None
      end
  end

(** One or more ["key": value] members, up to and including the closing
    brace. *)
with read_members (fuel : nat) (s : string) : option (list (string * value) * string) :=
  match fuel with
  | O => None
  | S fuel' =>
      match s with
      | String q s0 =>
          if Ascii.eqb q quote_char then
            match read_string s0 with
            | Some (k, after_key) =>
                match skip_ws after_key with
                | String colon s1 =>
                    if Ascii.eqb colon ":" then
                      match read_value fuel' (skip_ws s1) with
                      | Some (v, rest) =>
                          match skip_ws rest with
                          | String c s2 =>
                              if Ascii.eqb c "," then
                                match read_members fuel' (skip_ws s2) with
                                | Some (ms, rest') => Some ((k, v) :: ms, rest')
                                | None => None
                                end
                              else if Ascii.eqb c "}" then Some ([(k, v)], s2)
                              else None
                          | EmptyString => None
                          end
                      | None => None
                      end
                    else None
                | EmptyString => None
                end
            | None => None
            end
          else None
      | EmptyString => None
      end
  end.

(** [json.loads]: one value, white space around it allowed, nothing else. *)
Definition loads (s : string) : outcome value :=
  match read_value (S (String.length s)) (skip_ws s) with
  | Some (v, rest) =>
      if String.eqb (skip_ws rest) "" then Returned v
      else Raised (Exn JSONDecodeError "Extra data")
  | None => Raised (Exn JSONDecodeError "Expecting value")
  end.


(** *** The vocabulary of the round trip *)

(** One member of an object, as [dumps_at] prints it. *)
Definition print_member (level : nat) (m : string * value) : string :=
  let '(k, y) := m in quote k +:+ ": " +:+ dumps_at level y.

(** The fuel a value needs: one unit for it and one for each item below it. *)
Fixpoint size (v : value) : nat :=
  match v with
  | Arr items => S (list_sum (map (λ x, S (size x)) items))
  | Obj members => S (list_sum (map (λ m, S (size (snd m))) members))
  | _ => 1
  end.

(** A string that cannot continue the token before it: it is empty or
    starts with a comma or a line break. *)
Definition closes (rest : string) : Prop :=
  rest = "" ∨ (∃ r, rest = String "," r) ∨ (∃ r, rest = String (ascii_of_nat 10) r).

(** The token before it is over: [rest] starts with no digit, point or
    exponent mark. *)
Definition ends_number (rest : string) : Prop :=
  match rest with
  | EmptyString => True
  | String c _ =>
      is_digit c = false ∧ c ≠ "."%char ∧ c ≠ "e"%char ∧ c ≠ "E"%char
  end.

(** What the round trip asks of one value: printed at any level and
    followed by something that closes it, it is read back, with enough fuel. *)
Definition reads_back (v : value) : Prop :=
  ∀ fuel level rest,
    size v ≤ fuel → closes rest →
    read_value fuel (dumps_at level v +:+ rest) = Some (v, rest).

End Json.

Module Sample.

Import Byte.

(** The first bytes of a PNG file and of a PDF file. *)
Definition png_bytes : bytes := [x89; x50; x4e; x47].
Definition pdf_bytes : bytes := [x25; x50; x44; x46].

(** Names of the shape [tempfile] gives: ["tmp"], eight characters of
    [a-z0-9_], the suffix. *)
Definition fresh_name (suffix : string) (w : World) : string :=
  if bool_decide (is_Some (files w !! ("/tmp/tmpk3x9q2ab" +:+ suffix)))
  then "/tmp/tmp0f_z71cd" +:+ suffix
  else "/tmp/tmpk3x9q2ab" +:+ suffix.

(** Images and pages are their bytes; every OpenCV step succeeds and leaves
    them as they are; a PDF renders to one page; [reply] is the endpoint. *)
Definition env (reply : string → Payload → outcome Response) : Env :=
  {| image := bytes;
     page := bytes;
     json := Json.value;
     os_name_nt := false;
     GetShortPathNameW := λ p, p;
     convert_from_path := λ path w,
       match files w !! path with
       | Some b => Returned [b]
       | None => Raised (Exn OSError ("Unable to get page count: " +:+ path))
       end;
     page_save_jpeg := λ p, Returned p;
     temp_name := λ suffix w, Returned (fresh_name suffix w);
     imdecode := λ b, Returned (match b with [] => None | _ => Some b end);
     cvtColor_BGR2GRAY := λ i, Returned i;
     clahe_apply := λ i, Returned i;
     fastNlMeansDenoising := λ i, Returned i;
     imwrite_jpg := λ i, Returned (Some i);
     b64encode := Base64.encode;
     requests_post := reply;
     json_loads := Json.loads;
     json_dumps := Json.dumps |}.

(** An endpoint that answers [200 OK] with [text] as its ["response"]. *)
Definition answers (text : string) (url : string) (p : Payload) : outcome Response :=
  Returned (mkResponse 200 "OK" url (Returned (Some text))).

(** An endpoint that answers [500 Internal Server Error] to every request. *)
Definition fails_500 (url : string) (p : Payload) : outcome Response :=
  Returned (mkResponse 500 "Internal Server Error" url
              (Raised (Exn ValueError "Expecting value: line 1 column 1 (char 0)"))).

(** An endpoint nobody listens on. *)
Definition unreachable (url : string) (p : Payload) : outcome Response :=
  Raised (Exn ConnectionError ("Connection refused: " +:+ url)).

(** An endpoint that answers [200 OK] with a body that is not JSON. *)
Definition answers_garbage (url : string) (p : Payload) : outcome Response :=
  Returned (mkResponse 200 "OK" url
              (Raised (Exn JSONDecodeError "Expecting value: line 1 column 1 (char 0)"))).

(** [scan.png] and [doc.pdf] can be read; [empty.png] holds no bytes. *)
Definition world : World :=
  mkWorld (<["scan.png" := png_bytes]>
             (<["doc.pdf" := pdf_bytes]> (<["empty.png" := []]> ∅))) [].

Definition processor : OCRProcessor := OCRProcessor_init None None.

(** The working directory: [scans/] holds two images, a text file, a
    directory whose name ends in [.png], and a subdirectory with one more
    image. *)
Definition cwd : node :=
  Dir [ ("scans",
         Dir [ ("a.png", File);
               ("b.jpeg", File);
               ("notes.txt", File);
               ("old.png", Dir [("c.jpg", File)]);
               ("sub", Dir [("d.tiff", File); ("e.pdf.bak", File)]) ]);
        ("scan.png", File) ].

Fixpoint walk (n : node) (parts : list string) : option node :=
  match parts with
  | [] => Some n
  | name :: parts' =>
      match n with
      | Dir entries =>
          match list_find (λ e, fst e = name) entries with
          | Some (_, (_, sub)) => walk sub parts'
          | None => None
          end
      | File => None
      end
  end.

(** Relative paths resolve against [cwd]; nothing else exists. *)
Definition disk (p : Pathlib.Path) : option node :=
  if String.eqb (Pathlib.root p) "" then walk cwd (Pathlib.parts p) else None.

End Sample.

(** ** More sample environments *)

Module Sample2.

(** The sample environment with temporary names that are never on disk
    already, as [tempfile] guarantees: [/tmp/tmp], [/tmp/tmp0], [/tmp/tmp1],
    ..., the first one free (the suffix is left out of the name). *)
Definition fresh_env (reply : string → Payload → outcome Response) : Env :=
  let E := Sample.env reply in
  mkEnv (image E) (page E) (json E) (os_name_nt E) (GetShortPathNameW E)
        (convert_from_path E) (page_save_jpeg E)
        (λ suffix w, Returned (fresh_string "/tmp/tmp" (files w)))
        (imdecode E) (cvtColor_BGR2GRAY E) (clahe_apply E) (fastNlMeansDenoising E)
        (imwrite_jpg E) (b64encode E) (requests_post E) (json_loads E) (json_dumps E).

(** The sample environment with a PDF renderer that finds no page. *)
Definition blank_pdf_env (reply : string → Payload → outcome Response) : Env :=
  let E := Sample.env reply in
  mkEnv (image E) (page E) (json E) (os_name_nt E) (GetShortPathNameW E)
        (λ path w, Returned [])
        (page_save_jpeg E) (temp_name E)
        (imdecode E) (cvtColor_BGR2GRAY E) (clahe_apply E) (fastNlMeansDenoising E)
        (imwrite_jpg E) (b64encode E) (requests_post E) (json_loads E) (json_dumps E).

(** An endpoint that answers [200 OK] with a JSON object that has no
    ["response"] field. *)
Definition answers_nothing (url : string) (p : Payload) : outcome Response :=
  Returned (mkResponse 200 "OK" url (Returned None)).

(** The sample world with one more file, whose name ends in [_temp.jpg]. *)
Definition world_with_temp_name : World :=
  mkWorld (<["holiday_temp.jpg" := Sample.png_bytes]> (files Sample.world)) [].

(** A disk on which every path is a directory that holds one text file. *)
Definition text_only_disk (p : Pathlib.Path) : option node :=
  Some (Dir [("notes.txt", File)]).

End Sample2.

(** * The vocabulary of the properties *)

(** ** The collection loop *)

(** The key a future is recorded under. *)
Definition future_key (f : Future) : string := Pathlib.str (future_path f).

(** The call behind the future returned a value. *)
Definition returned (f : Future) : Prop := ∃ s, future_result f = Returned s.

(** ** Discovery *)

(** A name [glob] accepts for one of the five patterns. *)
Definition supported (name : string) : Prop :=
  ∃ ext, ext ∈ extensions ∧ PyStr.endswith name ext = true.

(** [entry_below base n dir name kind]: in the tree [n] found at path
    [base], the directory at path [dir] has an entry [name] of kind [kind]. *)
Inductive entry_below :
  Pathlib.Path → node → Pathlib.Path → string → node → Prop :=
| entry_here base entries name kind :
    (name, kind) ∈ entries →
    entry_below base (Dir entries) base name kind
| entry_deeper base entries d sub dir name kind :
    (d, sub) ∈ entries →
    entry_below (Pathlib.child base d) sub dir name kind →
    entry_below base (Dir entries) dir name kind.

(** ** The request log *)

(** [m] leaves the log of requests as it found it. *)
Definition keeps_sent {A} (m : M A) : Prop := ∀ w, sent (snd (m w)) = sent w.

(** What the request log can look like after a step that started in [w]:
    unchanged, or one request longer. *)
Definition sent_at_most_one (self : OCRProcessor) (format_type : string)
    (w w' : World) : Prop :=
  sent w' = sent w
  ∨ ∃ image_base64,
      sent w' = sent w ++ [(base_url self,
                            mkPayload (model_name self) (prompts_get format_type)
                                      false [image_base64])].

(** ** Sample runs *)

(** The batch run the explicit examples below look at: the sample processor
    and disk, every call seeing the sample world and the endpoint [reply],
    and the calls finishing in the order they were submitted. *)
Definition sample_batch (reply : string → Payload → outcome Response)
    (input_path : batch_input) (format_type : string) (recursive preprocess : bool)
  : BatchReport :=
  process_batch Sample.processor Sample.disk
    (λ _, Sample.env reply) (λ _, Sample.world) (λ i, i)
    input_path format_type recursive preprocess.

(** The answer of Scenario D: the object [{"title": "A"}] on one line. *)
Definition scenario_d_answer : string :=
  "{" +:+ dq +:+ "title" +:+ dq +:+ ": " +:+ dq +:+ "A" +:+ dq +:+ "}".


(** ** The files on disk *)

(** [tempfile] hands out names of files that do not exist yet. *)
Definition fresh_names (E : Env) : Prop :=
  ∀ suffix w name, temp_name E suffix w = Returned name → files w !! name = None.

(** The request [process_image] builds for an image already encoded. *)
Definition request_for (self : OCRProcessor) (format_type image_base64 : string)
  : string * Payload :=
  (base_url self,
   mkPayload (model_name self) (prompts_get format_type) false [image_base64]).

(** The message of [FileNotFoundError] for [path]. *)
Definition no_such_file (path : string) : string :=
  "[Errno 2] No such file or directory: '" +:+ path +:+ "'".

(** Lines 186-197 of [process_image]: send the request for the encoded
    image and read the generated text. *)
Definition ask_endpoint (E : Env) (self : OCRProcessor)
    (format_type image_base64 : string) : M string :=
  let* response :=
    post E self (mkPayload (model_name self) (prompts_get format_type) false
                           [image_base64]) in
  raise_for_status response;;;
  response_text response.

(** The suffixes line 107 of [process_image] looks for. *)
Definition cleanup_suffixes : list string := ["_preprocessed.jpg"; "_temp.jpg"].

(** From [w] to [w'], one temporary file [name] was created (and perhaps
    filled), and nothing else changed. *)
Definition adds_temp (E : Env) (w w' : World) (name : string) : Prop :=
  ∃ content,
    temp_name E ".jpg" w = Returned name
    ∧ w' = mkWorld (<[name := content]> (files w)) (sent w).

(** ** Directories a file system can hold *)

(** [s] holds a slash. *)
Fixpoint has_slash (s : string) : bool :=
  match s with
  | EmptyString => false
  | String c s' => Ascii.eqb c "/" || has_slash s'
  end.

(** A name an entry can have: not empty, no slash in it. *)
Definition valid_name (name : string) : bool :=
  negb (String.eqb name "") && negb (has_slash name).

(** In every directory of the tree the names are valid and no two entries
    have the same name. *)
Fixpoint well_formed (n : node) : bool :=
  match n with
  | File => true
  | Dir entries =>
      bool_decide (NoDup (map fst entries))
      && forallb (λ e, valid_name (fst e) && well_formed (snd e)) entries
  end.

(** The path [rel] names below [base]. *)
Definition under (base : Pathlib.Path) (rel : list string) : Pathlib.Path :=
  Pathlib.mkPath (Pathlib.root base) (Pathlib.parts base ++ rel).

(** What [glob_star] and [glob_starstar] find, as names relative to the
    directory searched. *)
Definition rel_star (entries : list (string * node)) (ext : string)
  : list (list string) :=
  map (λ e, [fst e]) (filter (λ e, PyStr.endswith (fst e) ext = true) entries).

Fixpoint rel_starstar (n : node) (ext : string) : list (list string) :=
  match n with
  | File => []
  | Dir entries =>
      rel_star entries ext
      ++ flat_map (λ e, map (cons (fst e)) (rel_starstar (snd e) ext)) entries
  end.

(** The relative names one scan of a directory collects: every extension in
    turn. *)
Definition rel_scan (entries : list (string * node)) (recursive : bool)
  : list (list string) :=
  flat_map (λ ext, if recursive then rel_starstar (Dir entries) ext
                   else rel_star entries ext) extensions.

(** The text [str] puts before the relative names of the paths under
    [base]. *)
Definition str_prefix (base : Pathlib.Path) : string :=
  Pathlib.root base
  +:+ match Pathlib.parts base with
      | [] => ""
      | _ => PyStr.join "/" (Pathlib.parts base) +:+ "/"
      end.
(** * Properties *)

(** ** Strings *)

Lemma drop_length_app (p s : string) :
  PyStr.drop (String.length p) (p +:+ s) = s.
Proof. induction p as [|c p IH]; simpl; auto. Qed.

Lemma string_length_app (p s : string) :
  String.length (p +:+ s) = String.length p + String.length s.
Proof. induction p as [|c p IH]; simpl; auto. Qed.

Lemma drop_split (n : nat) (s : string) :
  n ≤ String.length s →
  ∃ p, s = p +:+ PyStr.drop n s ∧ String.length p = n.
Proof.
  revert s. induction n as [|n IH]; intros s Hn.
  - exists "". split; reflexivity.
  - destruct s as [|c s]; simpl in *; [lia|].
    destruct (IH s) as (p & Hp & Hlen); [lia|].
    exists (String c p). split; [|simpl; lia].
    change (String c s = String c (p +:+ PyStr.drop n s)). by f_equal.
Qed.

(** [endswith] is the suffix test: [s] ends with [suffix] exactly when
    [s = p ++ suffix] for some [p]. *)
Lemma endswith_spec (s suffix : string) :
  PyStr.endswith s suffix = true ↔ ∃ p, s = p +:+ suffix.
Proof.
  unfold PyStr.endswith. rewrite andb_true_iff, Nat.leb_le, String.eqb_eq. split.
  - intros [Hlen Hdrop].
    destruct (drop_split (String.length s - String.length suffix) s) as (p & Hp & _);
      [lia|]. exists p. congruence.
  - intros [p ->]. rewrite string_length_app. split; [lia|].
    replace (String.length p + String.length suffix - String.length suffix)
      with (String.length p) by lia.
    apply drop_length_app.
Qed.

(** ** The single-item pipeline *)

Section ProcessImageFacts.

Variable E : Env.
Variable self : OCRProcessor.

(** The handler of [process_image] catches whatever its body raises. *)
Lemma process_image_unfold image_path format_type preprocess w :
  process_image E self image_path format_type preprocess w =
  match process_image_body E self image_path format_type preprocess w with
  | (Returned s, w') => (Returned s, w')
  | (Raised e, w') => (Returned ("处理图片时出错: " +:+ str_exn e), w')
  end.
Proof.
  unfold process_image, try_except.
  destruct (process_image_body _ _ _ _ _ _) as [[s|e] w']; reflexivity.
Qed.

Lemma process_image_returns image_path format_type preprocess w :
  ∃ s, fst (process_image E self image_path format_type preprocess w) = Returned s.
Proof.
  rewrite process_image_unfold.
  destruct (process_image_body _ _ _ _ _ _) as [[s|e] w']; simpl; eauto.
Qed.

End ProcessImageFacts.

(** ** The collection loop *)



(** When every future returns, the loop leaves [errors] alone and adds
    exactly the futures' keys to [results]. *)
Lemma record_futures_returned (fs : list Future) (R0 E0 : gmap string string) :
  Forall returned fs →
  snd (foldl record_future (R0, E0) fs) = E0
  ∧ dom (fst (foldl record_future (R0, E0) fs))
    = dom R0 ∪ list_to_set (future_key <$> fs).
Proof.
  revert R0. induction fs as [|f fs IH]; intros R0 Hall; simpl.
  - split; [done | set_solver].
  - inversion Hall as [|? ? [s Hs] Hrest]; subst.
    unfold record_future at 2 4. rewrite Hs. simpl.
    destruct (IH (<[Pathlib.str (future_path f) := s]> R0) Hrest) as [HE HR].
    split; [exact HE|]. rewrite HR, dom_insert_L. unfold future_key. set_solver.
Qed.

(** Every value the loop leaves in [results] was there before or is what one
    of the futures returned for that key. *)
Lemma record_futures_value (fs : list Future) (R0 E0 : gmap string string) k v :
  fst (foldl record_future (R0, E0) fs) !! k = Some v →
  R0 !! k = Some v
  ∨ ∃ f, f ∈ fs ∧ future_key f = k ∧ future_result f = Returned v.
Proof.
  revert R0 E0. induction fs as [|f fs IH]; intros R0 E0; simpl; [auto|].
  destruct (record_future (R0, E0) f) as [R1 E1] eqn:Hrec.
  intros H. apply IH in H as [H | (g & Hg & Hk & Hv)].
  - unfold record_future in Hrec.
    destruct (future_result f) as [s|e] eqn:Hf; simpl in Hrec;
      injection Hrec as <- <-; [|auto].
    destruct (decide (Pathlib.str (future_path f) = k)) as [Heq|Hne].
    + rewrite Heq, lookup_insert_eq in H. injection H as ->.
      right. exists f. split; [left | done].
    + rewrite lookup_insert_ne in H by done. auto.
  - right. exists g. split; [by right | done].
Qed.

Lemma size_list_to_set_remove_dups (l : list string) :
  size (list_to_set (C := gset string) l) = length (remove_dups l).
Proof.
  rewrite <- (size_list_to_set (C := gset string) (remove_dups l))
    by apply NoDup_remove_dups.
  f_equal. apply set_eq. intros x.
  rewrite !elem_of_list_to_set, elem_of_remove_dups. done.
Qed.

Lemma length_remove_dups_le (l : list string) : length (remove_dups l) ≤ length l.
Proof.
  induction l as [|x l IH]; simpl; [lia|].
  destruct (decide_rel _ x l); simpl; lia.
Qed.

Lemma length_remove_dups_NoDup (l : list string) :
  length (remove_dups l) = length l ↔ NoDup l.
Proof.
  induction l as [|x l IH]; simpl.
  - split; [constructor | done].
  - pose proof (length_remove_dups_le l).
    destruct (decide_rel _ x l) as [Hin|Hnin]; simpl.
    + split; [lia|]. intros Hnd. apply NoDup_cons in Hnd as [? _]. done.
    + rewrite NoDup_cons. split.
      * intros Hlen. split; [done|]. apply IH. lia.
      * intros [_ Hnd]. apply IH in Hnd. lia.
Qed.

(** ** The batch report *)

Section BatchFacts.

Variable self : OCRProcessor.
Variable disk : Pathlib.Path → option node.
Variable task_env : nat → Env.
Variable task_world : nat → World.
Variable finished : nat → nat.

Local Abbreviation batch := (process_batch self disk task_env task_world finished).
Local Abbreviation submitted := (submit self task_env task_world finished).

Lemma submit_returned format_type preprocess i path :
  returned (submitted format_type preprocess i path).
Proof. unfold returned, submit. simpl. apply process_image_returns. Qed.

Lemma futures_returned format_type preprocess (paths : list Pathlib.Path) :
  Forall returned (as_completed (imap (submitted format_type preprocess) paths)).
Proof.
  unfold as_completed. rewrite merge_sort_Permutation.
  apply Forall_forall. intros f Hf.
  apply elem_of_lookup_imap in Hf as (i & p & -> & _). apply submit_returned.
Qed.

Lemma futures_keys format_type preprocess (paths : list Pathlib.Path) :
  list_to_set (C := gset string)
    (future_key <$> as_completed (imap (submitted format_type preprocess) paths))
  = list_to_set (Pathlib.str <$> paths).
Proof.
  apply set_eq. intros k. rewrite !elem_of_list_to_set.
  unfold as_completed. rewrite merge_sort_Permutation.
  rewrite !list_elem_of_fmap. split.
  - intros (f & -> & Hf). apply elem_of_lookup_imap in Hf as (i & p & -> & Hp).
    exists p. split; [done|]. eapply list_elem_of_lookup_2, Hp.
  - intros (p & -> & Hp). apply list_elem_of_lookup_1 in Hp as [i Hi].
    exists (submitted format_type preprocess i p). split; [done|].
    apply elem_of_lookup_imap. eauto.
Qed.

(** What [process_batch] returns, in terms of the discovered paths. *)
Lemma process_batch_report input_path format_type recursive preprocess :
  let paths := collect_paths disk input_path recursive in
  let r := batch input_path format_type recursive preprocess in
  errors r = ∅
  ∧ dom (results r) = list_to_set (Pathlib.str <$> paths)
  ∧ statistics r = mkStatistics (length paths) (size (results r)) (size (errors r)).
Proof.
  intros paths r. subst r. unfold process_batch. fold paths.
  pose proof (record_futures_returned _ ∅ ∅
                (futures_returned format_type preprocess paths)) as [HE HR].
  destruct (foldl record_future _ _) as [R Er]. simpl in *. subst Er.
  split; [done|]. split; [|done].
  rewrite HR, futures_keys, dom_empty_L. set_solver.
Qed.

Lemma process_batch_counts input_path format_type recursive preprocess :
  let paths := collect_paths disk input_path recursive in
  let stats := statistics (batch input_path format_type recursive preprocess) in
  total stats = length paths
  ∧ successful stats = length (remove_dups (Pathlib.str <$> paths))
  ∧ failed stats = 0.
Proof.
  intros paths stats. subst stats.
  destruct (process_batch_report input_path format_type recursive preprocess)
    as (HE & HR & ->). fold paths in HR. simpl.
  rewrite HE, map_size_empty. split; [done|]. split; [|done].
  rewrite <- size_dom, HR. apply size_list_to_set_remove_dups.
Qed.

(** A value of [results] is what one of the calls submitted for that key
    returned. *)
Lemma process_batch_value input_path format_type recursive preprocess k v :
  results (batch input_path format_type recursive preprocess) !! k = Some v →
  ∃ i path,
    collect_paths disk input_path recursive !! i = Some path
    ∧ Pathlib.str path = k
    ∧ fst (process_image (task_env i) self (Pathlib.str path) format_type preprocess
                         (task_world i)) = Returned v.
Proof.
  unfold process_batch.
  pose proof (record_futures_value
                (as_completed (imap (submitted format_type preprocess)
                                    (collect_paths disk input_path recursive)))
                ∅ ∅ k v) as Hval.
  destruct (foldl record_future _ _) as [R Er]. simpl in *.
  intros H. destruct (Hval H) as [Habs | (f & Hf & Hk & Hv)].
  - by rewrite lookup_empty in Habs.
  - unfold as_completed in Hf. rewrite merge_sort_Permutation in Hf.
    apply elem_of_lookup_imap in Hf as (i & p & -> & Hp).
    exists i, p. done.
Qed.

End BatchFacts.

(** ** Discovery *)



Lemma node_nested_ind (P : node → Prop) :
  P File →
  (∀ entries, Forall (λ e, P (snd e)) entries → P (Dir entries)) →
  ∀ n, P n.
Proof.
  intros HFile HDir. fix IH 1. intros [|entries]; [exact HFile|].
  apply HDir. induction entries as [|[name sub] entries IHentries].
  - constructor.
  - constructor; [apply IH | exact IHentries].
Qed.

Lemma glob_star_spec base entries ext p :
  p ∈ glob_star base entries ext ↔
  ∃ name kind, (name, kind) ∈ entries
               ∧ PyStr.endswith name ext = true
               ∧ p = Pathlib.child base name.
Proof.
  unfold glob_star. rewrite list_elem_of_In, in_map_iff. split.
  - intros ([name kind] & <- & Hin). apply list_elem_of_In, list_elem_of_filter in Hin.
    destruct Hin as [Hext Hin]. simpl in *. eauto.
  - intros (name & kind & Hin & Hext & ->). exists (name, kind). split; [done|].
    apply list_elem_of_In, list_elem_of_filter. done.
Qed.

Lemma glob_starstar_spec ext n : ∀ base p,
  p ∈ glob_starstar base n ext ↔
  ∃ dir name kind, entry_below base n dir name kind
                   ∧ PyStr.endswith name ext = true
                   ∧ p = Pathlib.child dir name.
Proof.
  induction n as [|entries IH] using node_nested_ind; intros base p.
  - simpl. split; [by intros ?%not_elem_of_nil|].
    intros (dir & name & kind & H & _). inversion H.
  - simpl. rewrite elem_of_app, glob_star_spec.
    set (below := fix below (es : list (string * node)) : list Pathlib.Path :=
           match es with
           | [] => []
           | (name, sub) :: es' =>
               glob_starstar (Pathlib.child base name) sub ext ++ below es'
           end).
    assert (Hbelow : ∀ es, Forall (λ e, ∀ base p,
                 p ∈ glob_starstar base e.2 ext ↔
                 ∃ dir name kind, entry_below base e.2 dir name kind
                                  ∧ PyStr.endswith name ext = true
                                  ∧ p = Pathlib.child dir name) es →
              (p ∈ below es ↔
               ∃ d sub dir name kind,
                 (d, sub) ∈ es
                 ∧ entry_below (Pathlib.child base d) sub dir name kind
                 ∧ PyStr.endswith name ext = true
                 ∧ p = Pathlib.child dir name)).
    { induction es as [|[d sub] es IHes]; intros Hall.
      - simpl. split; [by intros ?%not_elem_of_nil|].
        intros (? & ? & ? & ? & ? & ?%not_elem_of_nil & _). done.
      - inversion Hall as [|? ? Hd Hes]; subst. simpl in Hd.
        simpl. rewrite elem_of_app, Hd, (IHes Hes). split.
        + intros [(dir & name & kind & Hb & He & ->)
                 | (d' & sub' & dir & name & kind & Hin & Hb & He & ->)].
          * exists d, sub, dir, name, kind. split; [left | done].
          * exists d', sub', dir, name, kind. split; [by right | done].
        + intros (d' & sub' & dir & name & kind & Hin & Hb & He & ->).
          apply elem_of_cons in Hin as [[= -> ->] | Hin].
          * left. exists dir, name, kind. done.
          * right. exists d', sub', dir, name, kind. done. }
    rewrite (Hbelow entries IH). split.
    + intros [(name & kind & Hin & He & ->)
             | (d & sub & dir & name & kind & Hin & Hb & He & ->)].
      * exists base, name, kind. split; [by constructor | done].
      * exists dir, name, kind. split; [by econstructor | done].
    + intros (dir & name & kind & Hb & He & ->).
      inversion Hb; subst.
      * left. eauto.
      * right. eauto 10.
Qed.

Lemma startswith_app (p s : string) : PyStr.startswith (p +:+ s) p = true.
Proof.
  induction p as [|c p IH]; [done|].
  change (PyStr.startswith (String c (p +:+ s)) (String c p) = true).
  simpl. by rewrite Ascii.eqb_refl.
Qed.

(** The paths found in a directory, for each value of [recursive]. *)
Lemma collect_paths_dir disk input_path entries recursive p :
  disk (Pathlib.Path_of input_path) = Some (Dir entries) →
  p ∈ collect_paths disk (Str input_path) recursive ↔
  ∃ dir name kind,
    (if recursive
     then entry_below (Pathlib.Path_of input_path) (Dir entries) dir name kind
     else dir = Pathlib.Path_of input_path ∧ (name, kind) ∈ entries)
    ∧ supported name
    ∧ p = Pathlib.child dir name.
Proof.
  intros Hdisk. unfold collect_paths, is_dir. rewrite Hdisk.
  rewrite list_elem_of_In, in_flat_map. unfold supported.
  setoid_rewrite <- list_elem_of_In.
  split.
  - intros (ext & Hext & Hp). unfold glob in Hp. rewrite Hdisk in Hp.
    destruct recursive.
    + rewrite startswith_app in Hp.
      change 4 with (String.length "**/*") in Hp. rewrite drop_length_app in Hp.
      apply glob_starstar_spec in Hp as (dir & name & kind & Hb & He & ->).
      exists dir, name, kind. eauto.
    + replace (PyStr.startswith ("*" +:+ ext) "**/*") with false in Hp.
      2:{ repeat (apply elem_of_cons in Hext as [-> | Hext]; [done|]).
          by apply not_elem_of_nil in Hext. }
      rewrite startswith_app in Hp.
      change 1 with (String.length "*") in Hp. rewrite drop_length_app in Hp.
      apply glob_star_spec in Hp as (name & kind & Hin & He & ->).
      exists (Pathlib.Path_of input_path), name, kind.
      split; [done|]. split; [|done]. exists ext. done.
  - intros (dir & name & kind & Hwhere & (ext & Hext & He) & ->).
    exists ext. split; [done|]. unfold glob. rewrite Hdisk.
    destruct recursive.
    + rewrite startswith_app.
      change 4 with (String.length "**/*"). rewrite drop_length_app.
      apply glob_starstar_spec. exists dir, name, kind. done.
    + destruct Hwhere as [-> Hin].
      replace (PyStr.startswith ("*" +:+ ext) "**/*") with false.
      2:{ repeat (apply elem_of_cons in Hext as [-> | Hext]; [done|]).
          by apply not_elem_of_nil in Hext. }
      rewrite startswith_app.
      change 1 with (String.length "*"). rewrite drop_length_app.
      apply glob_star_spec. exists name, kind. done.
Qed.

(** ** The instruction templates *)

Lemma prompts_lookup_text : prompts !! "text" = Some prompt_text.
Proof.
  unfold prompts. simpl.
  rewrite lookup_insert_ne by done. apply lookup_insert_eq.
Qed.

Lemma prompts_get_text : prompts_get "text" = prompt_text.
Proof. unfold prompts_get. by rewrite prompts_lookup_text. Qed.

Lemma prompts_lookup_unknown format_type :
  format_type ∉ ["markdown"; "text"; "json"; "structured"; "key_value"] →
  prompts !! format_type = None.
Proof. intros H. unfold prompts. by apply not_elem_of_list_to_map_1. Qed.

Lemma prompts_get_unknown format_type :
  format_type ∉ ["markdown"; "text"; "json"; "structured"; "key_value"] →
  prompts_get format_type = prompt_text.
Proof.
  intros H. unfold prompts_get.
  rewrite (prompts_lookup_unknown _ H). simpl.
  unfold lookup_total, map_lookup_total. by rewrite prompts_lookup_text.
Qed.

(** ** Which steps send a request *)

Lemma bind_inv {A B} (m : M A) (k : A → M B) w r w' :
  bind m k w = (r, w') →
  (∃ a w1, m w = (Returned a, w1) ∧ k a w1 = (r, w'))
  ∨ (∃ e, m w = (Raised e, w') ∧ r = Raised e).
Proof.
  unfold bind. destruct (m w) as [[a|e] w1]; intros H.
  - left. eauto.
  - right. injection H as <- <-. eauto.
Qed.


Lemma keeps_sent_ret {A} (a : A) : keeps_sent (ret a).
Proof. done. Qed.

Lemma keeps_sent_raise {A} (e : exn) : keeps_sent (raise (A := A) e).
Proof. done. Qed.

Lemma keeps_sent_lift {A} (o : outcome A) : keeps_sent (lift o).
Proof. done. Qed.

Lemma keeps_sent_ask {A} (f : World → outcome A) : keeps_sent (λ w, (f w, w)).
Proof. done. Qed.

Lemma keeps_sent_bind {A B} (m : M A) (k : A → M B) :
  keeps_sent m → (∀ a, keeps_sent (k a)) → keeps_sent (bind m k).
Proof.
  intros Hm Hk w. unfold bind. specialize (Hm w).
  destruct (m w) as [[a|e] w1]; simpl in *; [|done].
  by rewrite Hk.
Qed.

Lemma keeps_sent_try {A} (m : M A) catches (h : exn → M A) :
  keeps_sent m → (∀ e, keeps_sent (h e)) → keeps_sent (try_except m catches h).
Proof.
  intros Hm Hh w. unfold try_except. specialize (Hm w).
  destruct (m w) as [[a|e] w1]; simpl in *; [done|].
  destruct (catches e); [by rewrite Hh | done].
Qed.

Lemma keeps_sent_read_file path : keeps_sent (read_file path).
Proof. intros w. unfold read_file. by destruct (files w !! path). Qed.

Lemma keeps_sent_write_file path b : keeps_sent (write_file path b).
Proof. done. Qed.

Lemma keeps_sent_os_remove path : keeps_sent (os_remove path).
Proof. intros w. unfold os_remove. by destruct (files w !! path). Qed.

Lemma keeps_sent_raise_for_status r : keeps_sent (raise_for_status r).
Proof.
  unfold raise_for_status.
  repeat case_match; auto using @keeps_sent_ret, @keeps_sent_raise.
Qed.

Lemma keeps_sent_response_text r : keeps_sent (response_text r).
Proof.
  unfold response_text.
  repeat case_match; auto using @keeps_sent_ret, @keeps_sent_raise.
Qed.

Create HintDb frame discriminated.
#[global] Hint Resolve keeps_sent_ret keeps_sent_raise keeps_sent_lift keeps_sent_ask
  keeps_sent_read_file keeps_sent_write_file keeps_sent_os_remove
  keeps_sent_raise_for_status keeps_sent_response_text : frame.

(** Apply the frame rules down the structure of a monadic term. *)
Ltac frame_step :=
  first
    [ apply keeps_sent_bind; [|intros ?]
    | apply keeps_sent_try; [|intros ?]
    | solve [auto with frame]
    | match goal with |- keeps_sent (match ?x with _ => _ end) => destruct x end
    | match goal with |- keeps_sent (if ?b then _ else _) => destruct b end ].

Section SentFacts.

Variable E : Env.
Variable self : OCRProcessor.

Lemma keeps_sent_NamedTemporaryFile suffix : keeps_sent (NamedTemporaryFile E suffix).
Proof. unfold NamedTemporaryFile. repeat frame_step. Qed.

Lemma keeps_sent_read_image path : keeps_sent (_read_image E path).
Proof. unfold _read_image. repeat frame_step. Qed.

Lemma keeps_sent_preprocess path : keeps_sent (_preprocess_image E path).
Proof.
  pose proof keeps_sent_NamedTemporaryFile. pose proof keeps_sent_read_image.
  unfold _preprocess_image, render_pdf, enhance. repeat frame_step.
Qed.

Lemma keeps_sent_encode path : keeps_sent (_encode_image E path).
Proof. unfold _encode_image. repeat frame_step. Qed.

Lemma keeps_sent_post_process format_type result :
  keeps_sent (post_process E format_type result).
Proof. unfold post_process. repeat frame_step. Qed.


Lemma request_text_sent image_path format_type preprocess w r w' :
  request_text E self image_path format_type preprocess w = (r, w') →
  sent_at_most_one self format_type w w'.
Proof.
  unfold request_text. intros H.
  apply bind_inv in H as [(path & w1 & Hpre & H) | (e & Hpre & _)].
  2:{ left. assert (Hk : keeps_sent (if preprocess then _preprocess_image E image_path
                                      else ret image_path))
        by (destruct preprocess; auto using keeps_sent_preprocess with frame).
      specialize (Hk w). by rewrite Hpre in Hk. }
  assert (Hw1 : sent w1 = sent w).
  { assert (Hk : keeps_sent (if preprocess then _preprocess_image E image_path
                             else ret image_path))
      by (destruct preprocess; auto using keeps_sent_preprocess with frame).
    specialize (Hk w). by rewrite Hpre in Hk. }
  apply bind_inv in H as [(b64 & w2 & Henc & H) | (e & Henc & _)].
  2:{ left. pose proof (keeps_sent_encode path w1) as Hk. rewrite Henc in Hk.
      simpl in Hk. congruence. }
  assert (Hw2 : sent w2 = sent w).
  { pose proof (keeps_sent_encode path w1) as Hk. rewrite Henc in Hk.
    simpl in Hk. congruence. }
  assert (Hclean : keeps_sent
            (if PyStr.endswith_any path ["_preprocessed.jpg"; "_temp.jpg"]
             then os_remove path else ret tt))
    by (destruct (PyStr.endswith_any _ _); auto with frame).
  apply bind_inv in H as [([] & w3 & Hrm & H) | (e & Hrm & _)].
  2:{ left. specialize (Hclean w2). rewrite Hrm in Hclean. simpl in Hclean.
      congruence. }
  assert (Hw3 : sent w3 = sent w).
  { specialize (Hclean w2). rewrite Hrm in Hclean. simpl in Hclean. congruence. }
  right. exists b64. rewrite <- Hw3.
  apply bind_inv in H as [(response & w4 & Hpost & H) | (e & Hpost & _)].
  2:{ unfold post in Hpost. by injection Hpost as _ <-. }
  assert (Hw4 : sent w4 = sent w3 ++ [(base_url self,
                  mkPayload (model_name self) (prompts_get format_type) false [b64])]).
  { unfold post in Hpost. by injection Hpost as _ <-. }
  rewrite <- Hw4.
  apply bind_inv in H as [([] & w5 & Hst & H) | (e & Hst & _)].
  2:{ pose proof (keeps_sent_raise_for_status response w4) as Hk.
      by rewrite Hst in Hk. }
  pose proof (keeps_sent_raise_for_status response w4) as Hk.
  rewrite Hst in Hk. simpl in Hk. rewrite <- Hk.
  pose proof (keeps_sent_response_text response w5) as Hk'.
  by rewrite H in Hk'.
Qed.

(** A call sends nothing, or one request: to [base_url], for [model_name],
    with the template of [format_type], not streamed, with one image. *)
Lemma process_image_sent image_path format_type preprocess w :
  sent_at_most_one self format_type w
    (snd (process_image E self image_path format_type preprocess w)).
Proof.
  rewrite process_image_unfold. unfold process_image_body.
  destruct (bind _ _ w) as [r w'] eqn:H.
  assert (Hgoal : sent_at_most_one self format_type w w').
  { apply bind_inv in H as [(text & w1 & Hreq & H) | (e & Hreq & _)].
    - apply request_text_sent in Hreq.
      pose proof (keeps_sent_post_process format_type text w1) as Hk.
      rewrite H in Hk. simpl in Hk. unfold sent_at_most_one in *.
      rewrite Hk. exact Hreq.
    - by apply request_text_sent in Hreq. }
  by destruct r.
Qed.

End SentFacts.

(** ** The reference JSON codec reads back what it prints *)

Section JsonFacts.

Import Json.

Lemma string_app_assoc (s1 s2 s3 : string) : (s1 +:+ s2) +:+ s3 = s1 +:+ s2 +:+ s3.
Proof.
  induction s1 as [|c s1 IH]; [done|].
  change (String c ((s1 +:+ s2) +:+ s3) = String c (s1 +:+ s2 +:+ s3)). by f_equal.
Qed.

Lemma string_app_cons (c : ascii) (s t : string) : String c s +:+ t = String c (s +:+ t).
Proof. reflexivity. Qed.


Lemma closes_newline level rest : closes (newline level +:+ rest).
Proof. right. right. by eexists. Qed.

Lemma closes_comma rest : closes ("," +:+ rest).
Proof. right. left. by eexists. Qed.

Lemma skip_ws_spaces n s : skip_ws (spaces n +:+ s) = skip_ws s.
Proof. induction n as [|n IH]; [done|]. exact IH. Qed.

Lemma skip_ws_newline level s : skip_ws (newline level +:+ s) = skip_ws s.
Proof. unfold newline. apply (skip_ws_spaces (2 * level) s). Qed.

(** *** Strings *)

Lemma read_string_escape (c : ascii) (t : string) :
  read_string (escape c +:+ t)
  = match read_string t with
    | Some (x, rest) => Some (String c x, rest)
    | None => None
    end.
Proof. destruct c as [[] [] [] [] [] [] [] []]; reflexivity. Qed.

Lemma read_string_quote (s rest : string) :
  read_string (escape_string s +:+ String quote_char rest) = Some (s, rest).
Proof.
  induction s as [|c s IH]; [done|].
  simpl escape_string. rewrite string_app_assoc, read_string_escape. by rewrite IH.
Qed.

Lemma quote_app (s rest : string) :
  quote s +:+ rest = String quote_char (escape_string s +:+ String quote_char rest).
Proof. unfold quote. rewrite string_app_cons, string_app_assoc. reflexivity. Qed.

(** *** Integers *)


Lemma closes_ends_number rest : closes rest → ends_number rest.
Proof. intros [-> | [[r ->] | [r ->]]]; simpl; [done | |]; by repeat split. Qed.

Lemma span_digits_uint (d : Decimal.uint) (rest : string) :
  ends_number rest →
  span_digits (NilEmpty.string_of_uint d +:+ rest) = (NilEmpty.string_of_uint d, rest).
Proof.
  intros Hrest. induction d as [|d IH|d IH|d IH|d IH|d IH|d IH|d IH|d IH|d IH|d IH];
    simpl NilEmpty.string_of_uint; rewrite ?string_app_cons; simpl span_digits;
    rewrite ?IH; try reflexivity.
  destruct rest as [|c rest]; [done|]. simpl. by destruct Hrest as [-> _].
Qed.

Lemma unorm_head (d : Decimal.uint) :
  Decimal.unorm d = Decimal.zero ∨ ∀ d', Decimal.unorm d ≠ Decimal.D0 d'.
Proof. induction d; simpl; auto; right; intros d' H; discriminate H. Qed.

Lemma to_uint_no_leading_zero (p : positive) (d : Decimal.uint) :
  Pos.to_uint p ≠ Decimal.D0 d.
Proof.
  intros H.
  pose proof (DecimalPos.Unsigned.to_of (Pos.to_uint p)) as Hnorm.
  rewrite DecimalPos.Unsigned.of_to in Hnorm. simpl in Hnorm.
  destruct (unorm_head (Pos.to_uint p)) as [Hz | Hnz].
  - rewrite <- Hnorm in Hz. by apply DecimalPos.Unsigned.to_uint_nonzero in Hz.
  - apply (Hnz d). by rewrite <- Hnorm.
Qed.

(** The digits of a positive number: not empty, no sign, no leading zero. *)
Lemma print_pos_head (p : positive) :
  ∃ c ds, NilEmpty.string_of_uint (Pos.to_uint p) = String c ds
          ∧ is_digit c = true ∧ c ≠ "0"%char.
Proof.
  pose proof (to_uint_no_leading_zero p) as Hz.
  pose proof (DecimalPos.Unsigned.to_uint_nonnil p) as Hnil.
  destruct (Pos.to_uint p) as [|d|d|d|d|d|d|d|d|d|d]; simpl;
    [ by destruct Hnil | by destruct (Hz d) | .. ];
    (eexists _, _; split; [reflexivity|]; split; [reflexivity | discriminate]).
Qed.

Lemma read_int_digits (sign digits rest : string) (c : ascii) (ds : string) (i : Decimal.int) :
  digits = String c ds → is_digit c = true →
  (c = "0"%char → ds = "") →
  ends_number rest →
  span_digits (digits +:+ rest) = (digits, rest) →
  (sign = "" ∨ sign = "-") →
  NilZero.int_of_string (sign +:+ digits) = Some i →
  read_int (sign +:+ digits +:+ rest) = Some (Z.of_int i, rest).
Proof.
  intros -> Hc Hzero Hrest Hspan Hsign Hi. unfold read_int.
  assert (Hminus : Ascii.eqb c "-" = false).
  { apply Ascii.eqb_neq. intros ->. discriminate Hc. }
  assert (Hbody : (let '(sign', body) :=
             match sign +:+ String c ds +:+ rest with
             | String c0 s' => if Ascii.eqb c0 "-" then ("-", s') else ("", sign +:+ String c ds +:+ rest)
             | EmptyString => ("", sign +:+ String c ds +:+ rest)
             end in (sign', body)) = (sign, String c ds +:+ rest)).
  { destruct Hsign as [-> | ->]; simpl; [|done].
    rewrite string_app_cons. by rewrite Hminus. }
  destruct (match sign +:+ String c ds +:+ rest with
            | String c0 s' => _ | EmptyString => _ end) as [sign' body].
  injection Hbody as -> ->. rewrite Hspan.
  assert (Hlead : Ascii.eqb c "0" && negb (String.eqb ds "") = false).
  { destruct (Ascii.eqb_spec c "0") as [Hc0|]; [|done].
    rewrite (Hzero Hc0). done. }
  rewrite Hlead.
  assert (Hfrac : PyStr.startswith rest "." || PyStr.startswith rest "e"
                  || PyStr.startswith rest "E" = false).
  { destruct rest as [|r rest]; [done|]. destruct Hrest as (_ & H1 & H2 & H3).
    change ((if Ascii.eqb "." r then true else false)
            || (if Ascii.eqb "e" r then true else false)
            || (if Ascii.eqb "E" r then true else false) = false).
    apply Ascii.eqb_neq in H1, H2, H3.
    rewrite (Ascii.eqb_sym "." r), (Ascii.eqb_sym "e" r), (Ascii.eqb_sym "E" r).
    by rewrite H1, H2, H3. }
  rewrite Hfrac, Hi. reflexivity.
Qed.

Lemma read_int_print (z : Z) (rest : string) :
  ends_number rest → read_int (print_Z z +:+ rest) = Some (z, rest).
Proof.
  intros Hrest. unfold print_Z.
  rewrite <- (DecimalZ.of_to z) at 2.
  destruct z as [|p|p]; simpl Z.to_int.
  - apply (read_int_digits "" "0" rest "0" "" (Decimal.Pos (Decimal.D0 Decimal.Nil)));
      try done; [|by left].
    apply (span_digits_uint (Decimal.D0 Decimal.Nil) rest Hrest).
  - destruct (print_pos_head p) as (c & ds & Hp & Hc & Hnz).
    pose proof (DecimalPos.Unsigned.to_uint_nonnil p) as Hnil.
    assert (Hs : NilZero.string_of_int (Decimal.Pos (Pos.to_uint p))
                 = NilEmpty.string_of_uint (Pos.to_uint p)).
    { simpl. unfold NilZero.string_of_uint. by destruct (Pos.to_uint p). }
    rewrite Hs.
    apply (read_int_digits "" _ rest c ds); try done.
    + by apply span_digits_uint.
    + by left.
    + change ("" +:+ NilEmpty.string_of_uint (Pos.to_uint p))
        with (NilEmpty.string_of_uint (Pos.to_uint p)).
      rewrite <- Hs. apply NilZero.isi; intros [= H]; done.
  - destruct (print_pos_head p) as (c & ds & Hp & Hc & Hnz).
    pose proof (DecimalPos.Unsigned.to_uint_nonnil p) as Hnil.
    assert (Hs : NilZero.string_of_int (Decimal.Neg (Pos.to_uint p))
                 = "-" +:+ NilEmpty.string_of_uint (Pos.to_uint p)).
    { simpl. unfold NilZero.string_of_uint. by destruct (Pos.to_uint p). }
    rewrite Hs, string_app_assoc.
    apply (read_int_digits "-" _ rest c ds); try done.
    + by apply span_digits_uint.
    + by right.
    + rewrite <- Hs. apply NilZero.isi; intros [= H]; done.
Qed.

(** *** Values *)

Lemma value_nested_ind (P : value → Prop) :
  P Null → (∀ b, P (Bool b)) → (∀ z, P (Int z)) → (∀ s, P (Str s)) →
  (∀ items, Forall P items → P (Arr items)) →
  (∀ members, Forall (λ m, P (snd m)) members → P (Obj members)) →
  ∀ v, P v.
Proof.
  intros HNull HBool HInt HStr HArr HObj. fix IH 1. intros [|b|z|s|items|members].
  - exact HNull.
  - apply HBool.
  - apply HInt.
  - apply HStr.
  - apply HArr. induction items as [|x items IHitems]; constructor; [apply IH | exact IHitems].
  - apply HObj. induction members as [|[k x] members IHmembers]; constructor;
      [apply IH | exact IHmembers].
Qed.


Lemma is_digit_not_ws (c : ascii) : is_digit c = true → is_ws c = false.
Proof.
  unfold is_digit, is_ws. rewrite andb_true_iff, !Nat.leb_le, !orb_false_iff, !Nat.eqb_neq.
  lia.
Qed.

(** A printed integer starts with a digit or the minus sign. *)
Lemma print_Z_head (z : Z) :
  ∃ c r, print_Z z = String c r ∧ (is_digit c = true ∨ c = "-"%char).
Proof.
  unfold print_Z. destruct z as [|p|p]; simpl Z.to_int.
  - exists "0"%char, "". split; [done | by left].
  - destruct (print_pos_head p) as (c & ds & Hp & Hc & _).
    pose proof (DecimalPos.Unsigned.to_uint_nonnil p) as Hnil.
    exists c, ds. split; [|by left].
    simpl. unfold NilZero.string_of_uint. rewrite <- Hp. by destruct (Pos.to_uint p).
  - eexists "-"%char, _. split; [reflexivity | by right].
Qed.

Lemma skip_ws_head (c : ascii) (s : string) :
  is_ws c = false → skip_ws (String c s) = String c s.
Proof. intros H. simpl. by rewrite H. Qed.

(** Printed values start with no white space. *)
Lemma skip_ws_dumps (v : value) (level : nat) (t : string) :
  skip_ws (dumps_at level v +:+ t) = dumps_at level v +:+ t.
Proof.
  destruct v as [|[]|z|s|[|x xs]|[|[k x] ms]]; try reflexivity.
  destruct (print_Z_head z) as (c & r & Hz & Hc). simpl dumps_at. rewrite Hz.
  rewrite string_app_cons. apply skip_ws_head.
  destruct Hc as [Hc | ->]; [by apply is_digit_not_ws | done].
Qed.

Lemma read_value_unfold (fuel : nat) (c : ascii) (s' : string) :
  read_value (S fuel) (String c s') =
  if Ascii.eqb c "n" then literal "null" Null (String c s')
  else if Ascii.eqb c "t" then literal "true" (Bool true) (String c s')
  else if Ascii.eqb c "f" then literal "false" (Bool false) (String c s')
  else if Ascii.eqb c quote_char then
    match read_string s' with
    | Some (t, rest) => Some (Str t, rest)
    | None => None
    end
  else if Ascii.eqb c "[" then
    match skip_ws s' with
    | String c1 s1 =>
        if Ascii.eqb c1 "]" then Some (Arr [], s1)
        else match read_items fuel (String c1 s1) with
             | Some (items, rest) => Some (Arr items, rest)
             | None => None
             end
    | EmptyString => None
    end
  else if Ascii.eqb c "{" then
    match skip_ws s' with
    | String c1 s1 =>
        if Ascii.eqb c1 "}" then Some (Obj [], s1)
        else match read_members fuel (String c1 s1) with
             | Some (members, rest) => Some (Obj members, rest)
             | None => None
             end
    | EmptyString => None
    end
  else match read_int (String c s') with
       | Some (z, rest) => Some (Int z, rest)
       | None => None
       end.
Proof. reflexivity. Qed.

Lemma read_items_unfold (fuel : nat) (s : string) :
  read_items (S fuel) s =
  match read_value fuel s with
  | Some (v, rest) =>
      match skip_ws rest with
      | String c s1 =>
          if Ascii.eqb c "," then
            match read_items fuel (skip_ws s1) with
            | Some (vs, rest') => Some (v :: vs, rest')
            | None => None
            end
          else if Ascii.eqb c "]" then Some ([v], s1)
          else None
      | EmptyString => None
      end
  | None => None
  end.
Proof. reflexivity. Qed.

Lemma read_members_unfold (fuel : nat) (s0 : string) :
  read_members (S fuel) (String quote_char s0) =
  match read_string s0 with
  | Some (k, after_key) =>
      match skip_ws after_key with
      | String colon s1 =>
          if Ascii.eqb colon ":" then
            match read_value fuel (skip_ws s1) with
            | Some (v, rest) =>
                match skip_ws rest with
                | String c s2 =>
                    if Ascii.eqb c "," then
                      match read_members fuel (skip_ws s2) with
                      | Some (ms, rest') => Some ((k, v) :: ms, rest')
                      | None => None
                      end
                    else if Ascii.eqb c "}" then Some ([(k, v)], s2)
                    else None
                | EmptyString => None
                end
            | None => None
            end
          else None
      | EmptyString => None
      end
  | None => None
  end.
Proof. reflexivity. Qed.

Lemma read_value_int (fuel : nat) (z : Z) (rest : string) :
  ends_number rest →
  read_value (S fuel) (print_Z z +:+ rest) = Some (Int z, rest).
Proof.
  intros Hrest. pose proof (read_int_print z rest Hrest) as Hint.
  destruct (print_Z_head z) as (c & r & Hz & Hc). rewrite Hz in *.
  rewrite string_app_cons in *. rewrite read_value_unfold, Hint.
  assert (Hno : ∀ x : ascii, is_digit x = false → x ≠ "-"%char → Ascii.eqb c x = false).
  { intros x Hx Hm. apply Ascii.eqb_neq. intros ->. destruct Hc as [Hc | Hc]; congruence. }
  rewrite !Hno by done. reflexivity.
Qed.

(** A printed value starts with a character that is no white space and no
    closing bracket. *)
Lemma print_head (v : value) (level : nat) :
  ∃ c r, dumps_at level v = String c r ∧ Ascii.eqb c "]" = false.
Proof.
  destruct v as [|[]|z|s|[|x xs]|[|[k x] ms]]; try (by eexists _, _).
  destruct (print_Z_head z) as (c & r & Hz & Hc). exists c, r. split; [done|].
  apply Ascii.eqb_neq. intros ->. destruct Hc as [Hc | Hc]; discriminate Hc.
Qed.


Lemma closes_more {A} (print : A → string) level (close : string) (l : list A) rest :
  closes (more print ("," +:+ newline (S level)) (newline level +:+ close) l +:+ rest).
Proof.
  destruct l as [|y l]; simpl.
  - rewrite string_app_assoc. apply closes_newline.
  - rewrite !string_app_assoc. apply closes_comma.
Qed.

Lemma read_items_more (xs : list value) :
  Forall reads_back xs →
  ∀ x fuel level rest,
    reads_back x →
    S (size x) + list_sum (map (λ y, S (size y)) xs) ≤ fuel →
    read_items fuel
      (dumps_at (S level) x
       +:+ more (dumps_at (S level)) ("," +:+ newline (S level)) (newline level +:+ "]") xs
       +:+ rest)
    = Some (x :: xs, rest).
Proof.
  induction 1 as [|y ys Hy Hys IH]; intros x fuel level rest Hx Hfuel;
    (destruct fuel as [|fuel]; [simpl in Hfuel; lia|]);
    rewrite read_items_unfold.
  - rewrite (Hx fuel (S level)); [|simpl in Hfuel; lia | apply closes_more].
    simpl more. rewrite string_app_assoc, skip_ws_newline. reflexivity.
  - rewrite (Hx fuel (S level)); [|simpl in Hfuel; lia | apply closes_more].
    simpl more. rewrite !string_app_assoc.
    change (skip_ws ("," +:+ ?s)) with ("," +:+ s).
    change ("," +:+ ?s) with (String "," s). cbv iota beta.
    change (Ascii.eqb "," ",") with true. cbv iota.
    rewrite skip_ws_newline, skip_ws_dumps.
    rewrite (IH y fuel level rest Hy); [reflexivity|]. simpl in Hfuel |- *. lia.
Qed.


Lemma read_members_more (ms : list (string * value)) :
  Forall (λ m, reads_back (snd m)) ms →
  ∀ k x fuel level rest,
    reads_back x →
    S (size x) + list_sum (map (λ m, S (size (snd m))) ms) ≤ fuel →
    read_members fuel
      (quote k +:+ ": " +:+ dumps_at (S level) x
       +:+ more (print_member (S level)) ("," +:+ newline (S level))
                (newline level +:+ "}") ms
       +:+ rest)
    = Some ((k, x) :: ms, rest).
Proof.
  induction 1 as [|[k' y] ys Hy Hys IH]; intros k x fuel level rest Hx Hfuel;
    (destruct fuel as [|fuel]; [simpl in Hfuel; lia|]);
    rewrite quote_app, read_members_unfold, read_string_quote;
    change (skip_ws (": " +:+ ?s)) with (String ":" (" " +:+ s)); cbv iota beta;
    change (Ascii.eqb ":" ":") with true; cbv iota;
    change (skip_ws (" " +:+ ?s)) with (skip_ws s);
    rewrite skip_ws_dumps.
  - rewrite (Hx fuel (S level)); [|simpl in Hfuel; lia | apply closes_more].
    simpl more. rewrite string_app_assoc, skip_ws_newline. reflexivity.
  - rewrite (Hx fuel (S level)); [|simpl in Hfuel; lia | apply closes_more].
    simpl more. rewrite !string_app_assoc.
    change (skip_ws ("," +:+ ?s)) with ("," +:+ s).
    change ("," +:+ ?s) with (String "," s). cbv iota beta.
    change (Ascii.eqb "," ",") with true. cbv iota.
    rewrite skip_ws_newline.
    change (skip_ws (quote k' +:+ ?s)) with (quote k' +:+ s).
    simpl in Hy.
    rewrite (IH k' y fuel level rest Hy); [reflexivity|]. simpl in Hfuel |- *. lia.
Qed.

Lemma dumps_at_members level k x ms :
  dumps_at level (Obj ((k, x) :: ms))
  = "{" +:+ newline (S level) +:+ quote k +:+ ": " +:+ dumps_at (S level) x
    +:+ more (print_member (S level)) ("," +:+ newline (S level))
             (newline level +:+ "}") ms.
Proof. reflexivity. Qed.

(** Every value is read back. *)
Lemma read_value_dumps (v : value) : reads_back v.
Proof.
  induction v as [|b|z|s|items IH|members IH] using value_nested_ind;
    intros fuel level rest Hfuel Hrest;
    (destruct fuel as [|fuel]; [simpl in Hfuel; lia|]).
  - reflexivity.
  - by destruct b.
  - apply read_value_int. by apply closes_ends_number.
  - simpl dumps_at. rewrite quote_app, read_value_unfold.
    change (Ascii.eqb quote_char "n") with false.
    change (Ascii.eqb quote_char "t") with false.
    change (Ascii.eqb quote_char "f") with false.
    change (Ascii.eqb quote_char quote_char) with true. cbv iota.
    by rewrite read_string_quote.
  - destruct items as [|x xs]; [reflexivity|].
    inversion IH as [|? ? Hx Hxs]; subst.
    simpl dumps_at. rewrite !string_app_assoc.
    change ("[" +:+ ?s) with (String "[" s). rewrite read_value_unfold.
    change (Ascii.eqb "[" "n") with false.
    change (Ascii.eqb "[" "t") with false.
    change (Ascii.eqb "[" "f") with false.
    change (Ascii.eqb "[" quote_char) with false.
    change (Ascii.eqb "[" "[") with true. cbv iota.
    rewrite skip_ws_newline, skip_ws_dumps.
    pose proof (read_items_more xs Hxs x fuel level rest Hx) as Hitems.
    rewrite ?string_app_assoc in Hitems.
    destruct (print_head x (S level)) as (c & r & Hhead & Hc).
    rewrite Hhead in *. rewrite string_app_cons in *. rewrite Hc.
    rewrite Hitems; [reflexivity|]. simpl in Hfuel. lia.
  - destruct members as [|[k x] ms]; [reflexivity|].
    inversion IH as [|? ? Hx Hms]; subst. simpl in Hx.
    rewrite dumps_at_members, !string_app_assoc.
    change ("{" +:+ ?s) with (String "{" s). rewrite read_value_unfold.
    change (Ascii.eqb "{" "n") with false.
    change (Ascii.eqb "{" "t") with false.
    change (Ascii.eqb "{" "f") with false.
    change (Ascii.eqb "{" quote_char) with false.
    change (Ascii.eqb "{" "[") with false.
    change (Ascii.eqb "{" "{") with true. cbv iota.
    rewrite skip_ws_newline.
    pose proof (read_members_more ms Hms k x fuel level rest Hx) as Hmembers.
    rewrite ?string_app_assoc in Hmembers.
    rewrite quote_app in *.
    change (skip_ws (String quote_char ?s)) with (String quote_char s). cbv iota beta.
    change (Ascii.eqb quote_char "}") with false. cbv iota.
    rewrite Hmembers; [reflexivity|]. simpl in Hfuel. lia.
Qed.

(** *** Fuel: the length of the text is enough *)

Lemma string_app_nil_r (s : string) : s +:+ "" = s.
Proof. induction s as [|c s IH]; [done|]. rewrite string_app_cons. by f_equal. Qed.

Lemma length_more_items (xs : list value) (level : nat) (close : string) :
  Forall (λ y, ∀ level, size y ≤ String.length (dumps_at level y)) xs →
  list_sum (map (λ y, S (size y)) xs)
  ≤ String.length (more (dumps_at (S level)) ("," +:+ newline (S level)) close xs).
Proof.
  induction 1 as [|y ys Hy Hys IH]; simpl; [lia|].
  rewrite !string_length_app. specialize (Hy (S level)). simpl. lia.
Qed.

Lemma length_more_members (ms : list (string * value)) (level : nat) (close : string) :
  Forall (λ m, ∀ level, size (snd m) ≤ String.length (dumps_at level (snd m))) ms →
  list_sum (map (λ m, S (size (snd m))) ms)
  ≤ String.length (more (print_member (S level)) ("," +:+ newline (S level)) close ms).
Proof.
  induction 1 as [|[k y] ys Hy Hys IH]; simpl; [lia|].
  rewrite !string_length_app. specialize (Hy (S level)). simpl in *. lia.
Qed.

Lemma size_le_length (v : value) :
  ∀ level, size v ≤ String.length (dumps_at level v).
Proof.
  induction v as [|b|z|s|items IH|members IH] using value_nested_ind; intros level.
  - simpl. lia.
  - destruct b; simpl; lia.
  - destruct (print_Z_head z) as (c & r & Hz & _). simpl. rewrite Hz. simpl. lia.
  - simpl. lia.
  - destruct items as [|x xs]; [simpl; lia|].
    inversion IH as [|? ? Hx Hxs]; subst.
    pose proof (length_more_items xs level (newline level +:+ "]") Hxs).
    specialize (Hx (S level)).
    simpl dumps_at. rewrite !string_length_app. simpl. lia.
  - destruct members as [|[k x] ms]; [simpl; lia|].
    inversion IH as [|? ? Hx Hms]; subst.
    pose proof (length_more_members ms level (newline level +:+ "}") Hms).
    specialize (Hx (S level)). simpl in Hx.
    rewrite dumps_at_members, !string_length_app. simpl. lia.
Qed.

End JsonFacts.

(** [loads] reads back what [dumps] prints: the law of the round trip. *)
Lemma json_loads_dumps (v : Json.value) : Json.loads (Json.dumps v) = Returned v.
Proof.
  unfold Json.loads, Json.dumps.
  rewrite <- (string_app_nil_r (Json.dumps_at 0 v)) at 2.
  rewrite skip_ws_dumps, read_value_dumps.
  - reflexivity.
  - pose proof (size_le_length v 0). lia.
  - by left.
Qed.

(** * The claims of the specification *)

Lemma length_remove_dups_fmap (f : string → string) (l : list string) :
  length (remove_dups (f <$> l)) ≤ length (remove_dups l).
Proof.
  rewrite <- (length_fmap f (remove_dups l)).
  apply submseteq_length, NoDup_submseteq; [apply NoDup_remove_dups|].
  intros x. rewrite elem_of_remove_dups, !list_elem_of_fmap.
  intros (y & -> & Hy). exists y. by rewrite elem_of_remove_dups.
Qed.

Lemma repeated_not_NoDup (l : list string) i j s :
  i ≠ j → l !! i = Some s → l !! j = Some s → ¬ NoDup l.
Proof. intros Hij Hi Hj Hnd. apply Hij. eapply NoDup_lookup; eauto. Qed.

Section BatchClaims.

Variable self : OCRProcessor.
Variable disk : Pathlib.Path → option node.
Variable task_env : nat → Env.
Variable task_world : nat → World.
Variable finished : nat → nat.

(** C1, as amended.  For every [process_batch] invocation, the string form
    of each discovered path is a key of exactly one of [results] and
    [errors], never both; [successful = |results|], [failed = |errors|] and
    [total] is the number of discovered paths; [successful + failed] is the
    number of distinct path strings among them, so it is at most [total], and
    it equals [total] exactly when no two discovered paths have the same
    string. *)
Theorem batch_accounting input_path format_type recursive preprocess :
  let paths := collect_paths disk input_path recursive in
  let r := process_batch self disk task_env task_world finished
             input_path format_type recursive preprocess in
  let stats := statistics r in
  (∀ p, p ∈ paths →
        (is_Some (results r !! Pathlib.str p) ∧ errors r !! Pathlib.str p = None)
        ∨ (results r !! Pathlib.str p = None ∧ is_Some (errors r !! Pathlib.str p)))
  ∧ successful stats = size (results r)
  ∧ failed stats = size (errors r)
  ∧ total stats = length paths
  ∧ successful stats + failed stats = length (remove_dups (Pathlib.str <$> paths))
  ∧ successful stats + failed stats ≤ total stats
  ∧ (successful stats + failed stats = total stats ↔ NoDup (Pathlib.str <$> paths)).
Proof.
  intros paths r stats.
  destruct (process_batch_report self disk task_env task_world finished
              input_path format_type recursive preprocess) as (HE & HR & Hstats).
  destruct (process_batch_counts self disk task_env task_world finished
              input_path format_type recursive preprocess) as (Htotal & Hok & Hfailed).
  fold paths in HR, Htotal, Hok. fold r in HE, HR, Hstats. fold stats in Htotal, Hok, Hfailed.
  split.
  { intros p Hp. left. split; [|by rewrite HE].
    apply elem_of_dom. rewrite HR, elem_of_list_to_set.
    by apply list_elem_of_fmap_2. }
  split; [by subst stats; rewrite Hstats|].
  split; [by subst stats; rewrite Hstats|].
  split; [exact Htotal|].
  subst stats r. rewrite Hok, Hfailed, Htotal, Nat.add_0_r.
  split; [done|]. split.
  - rewrite <- (length_fmap Pathlib.str paths). apply length_remove_dups_le.
  - rewrite <- (length_fmap Pathlib.str paths). apply length_remove_dups_NoDup.
Qed.

(** C9.  Because [process_image] turns every exception into a returned
    string, for every [process_batch] invocation [errors] is empty and
    [failed] is 0: every attempted path is a key of [results], whose value is
    what one of the calls made for that path returned, and that is the
    error-describing string whenever the call's pipeline raised. *)
Theorem batch_errors_always_empty input_path format_type recursive preprocess :
  let paths := collect_paths disk input_path recursive in
  let r := process_batch self disk task_env task_world finished
             input_path format_type recursive preprocess in
  errors r = ∅
  ∧ failed (statistics r) = 0
  ∧ (∀ p, p ∈ paths → is_Some (results r !! Pathlib.str p))
  ∧ (∀ k v, results r !! k = Some v →
       ∃ i path,
         paths !! i = Some path ∧ Pathlib.str path = k
         ∧ fst (process_image (task_env i) self k format_type preprocess (task_world i))
           = Returned v
         ∧ (∀ e w', process_image_body (task_env i) self k format_type preprocess
                                        (task_world i) = (Raised e, w') →
                    v = "处理图片时出错: " +:+ str_exn e)).
Proof.
  intros paths r.
  destruct (process_batch_report self disk task_env task_world finished
              input_path format_type recursive preprocess) as (HE & HR & Hstats).
  fold paths in HR. fold r in HE, HR, Hstats.
  split; [done|]. split; [by rewrite Hstats, HE|]. split.
  - intros p Hp. apply elem_of_dom. rewrite HR, elem_of_list_to_set.
    by apply list_elem_of_fmap_2.
  - intros k v Hkv. apply process_batch_value in Hkv as (i & path & Hi & <- & Hv).
    exists i, path. repeat split; try done.
    intros e w' Hbody. rewrite process_image_unfold, Hbody in Hv. simpl in Hv.
    by injection Hv as <-.
Qed.

(** C10.  When the explicit input list holds the same path string more than
    once, [total] is the length of the list, duplicates included, while
    [results] and [errors] together hold at most one key per distinct path
    string, so [successful + failed] is strictly less than [total]. *)
Theorem batch_duplicates_undercount
    (input_paths : list string) format_type recursive preprocess
    (i j : nat) (s : string) :
  i ≠ j → input_paths !! i = Some s → input_paths !! j = Some s →
  let stats := statistics (process_batch self disk task_env task_world finished
                             (StrList input_paths) format_type recursive preprocess) in
  total stats = length input_paths
  ∧ successful stats + failed stats ≤ length (remove_dups input_paths)
  ∧ successful stats + failed stats < total stats.
Proof.
  intros Hij Hi Hj stats.
  destruct (process_batch_counts self disk task_env task_world finished
              (StrList input_paths) format_type recursive preprocess)
    as (Htotal & Hok & Hfailed).
  fold stats in Htotal, Hok, Hfailed. simpl in Htotal, Hok.
  rewrite Htotal, Hok, Hfailed, Nat.add_0_r, length_map.
  change (map Pathlib.Path_of input_paths) with (Pathlib.Path_of <$> input_paths).
  rewrite <- list_fmap_compose.
  pose proof (length_remove_dups_fmap (Pathlib.str ∘ Pathlib.Path_of) input_paths).
  pose proof (length_remove_dups_le input_paths).
  pose proof (proj1 (length_remove_dups_NoDup input_paths)).
  pose proof (repeated_not_NoDup input_paths i j s Hij Hi Hj).
  split; [done|]. split; [done|].
  destruct (decide (length (remove_dups input_paths) = length input_paths)); [tauto | lia].
Qed.

End BatchClaims.


(** C1 fails as stated: the list [["scan.png"; "scan.png"]] gives two
    discovered paths and [total = 2], but one key, so
    [successful + failed = 1]. *)
Lemma batch_accounting_fails_on_repeated_path :
  let r := sample_batch (Sample.answers "text") (StrList ["scan.png"; "scan.png"])
                        "text" false true in
  length (collect_paths Sample.disk (StrList ["scan.png"; "scan.png"]) false) = 2
  ∧ total (statistics r) = 2
  ∧ successful (statistics r) = 1
  ∧ failed (statistics r) = 0
  ∧ successful (statistics r) + failed (statistics r) ≠ total (statistics r).
Proof. vm_compute. repeat split; try reflexivity. discriminate. Qed.

(** C10 at the list [["scan.png"; "scan.png"]]: positions 0 and 1 hold the
    same string. *)
Lemma batch_duplicates_undercount_witness :
  let stats := statistics (sample_batch (Sample.answers "text")
                             (StrList ["scan.png"; "scan.png"]) "text" false true) in
  total stats = 2
  ∧ successful stats + failed stats ≤ length (remove_dups ["scan.png"; "scan.png"])
  ∧ successful stats + failed stats < total stats.
Proof.
  exact (batch_duplicates_undercount Sample.processor Sample.disk
           (λ _, Sample.env (Sample.answers "text")) (λ _, Sample.world) (λ i, i)
           ["scan.png"; "scan.png"] "text" false true 0 1 "scan.png"
           ltac:(lia) eq_refl eq_refl).
Defined.

(** C2 at its failing input: the endpoint answers 500 to every request, and
    the item is recorded in [results], as the text of the failure; [errors]
    stays empty and [failed] is 0. *)
Lemma http_500_lands_in_results :
  let r := sample_batch Sample.fails_500 (StrList ["scan.png"]) "text" false true in
  results r !! "scan.png"
  = Some ("处理图片时出错: 500 Server Error: Internal Server Error for url: "
          +:+ "http://localhost:11434/api/generate")
  ∧ errors r !! "scan.png" = None
  ∧ size (errors r) = 0
  ∧ statistics r = mkStatistics 1 1 0.
Proof. vm_compute. repeat split; reflexivity. Qed.


(** The pipeline failing at each of its stages, run on the sample world:
    a file that is not there, a file that does not decode, an endpoint that
    cannot be reached, one that answers 500, and one whose body is not JSON.
    Each time the call returns the text of the failure. *)
Example failure_at_each_stage :
  let run reply path :=
    fst (process_image (Sample.env reply) Sample.processor path "text" true
                       Sample.world) in
  run (Sample.answers "text") "missing.png"
  = Returned ("处理图片时出错: 预处理图片时出错: missing.png, 错误: "
              +:+ "读取图片失败: missing.png, 错误: "
              +:+ "[Errno 2] No such file or directory: 'missing.png'")
  ∧ run (Sample.answers "text") "empty.png"
    = Returned ("处理图片时出错: 预处理图片时出错: empty.png, 错误: "
                +:+ "读取图片失败: empty.png, 错误: 无法读取图片文件: empty.png")
  ∧ run Sample.unreachable "scan.png"
    = Returned ("处理图片时出错: Connection refused: "
                +:+ "http://localhost:11434/api/generate")
  ∧ run Sample.fails_500 "scan.png"
    = Returned ("处理图片时出错: 500 Server Error: Internal Server Error for url: "
                +:+ "http://localhost:11434/api/generate")
  ∧ run Sample.answers_garbage "scan.png"
    = Returned "处理图片时出错: Expecting value: line 1 column 1 (char 0)".
Proof. vm_compute. repeat split; reflexivity. Qed.

(** C5.  A [format_type] outside the five keys of [prompts] selects the
    template of ["text"]: the call does what the call with ["text"] does
    (same result, same files, same request), and the request it sends, if
    any, carries [prompt_text]. *)
Theorem unknown_format_uses_text_template
    (E : Env) (self : OCRProcessor) image_path format_type preprocess (w : World) :
  format_type ∉ ["markdown"; "text"; "json"; "structured"; "key_value"] →
  prompts_get format_type = prompts_get "text"
  ∧ process_image E self image_path format_type preprocess w
    = process_image E self image_path "text" preprocess w
  ∧ (sent (snd (process_image E self image_path format_type preprocess w)) = sent w
     ∨ ∃ image_base64,
         sent (snd (process_image E self image_path format_type preprocess w))
         = sent w ++ [(base_url self,
                       mkPayload (model_name self) prompt_text false [image_base64])]).
Proof.
  intros Hunknown.
  assert (Hprompt : prompts_get format_type = prompts_get "text")
    by (by rewrite prompts_get_text, prompts_get_unknown).
  assert (Hjson : String.eqb format_type "json" = false).
  { apply String.eqb_neq. intros ->. apply Hunknown. set_solver. }
  split; [done|]. split.
  - unfold process_image, process_image_body, request_text, post_process.
    rewrite Hprompt, Hjson. reflexivity.
  - pose proof (process_image_sent E self image_path format_type preprocess w) as H.
    unfold sent_at_most_one in H. by rewrite Hprompt, prompts_get_text in H.
Qed.

(** C5 at the format ["html"], for the sample image and endpoint. *)
Lemma unknown_format_uses_text_template_witness :
  prompts_get "html" = prompts_get "text"
  ∧ process_image (Sample.env (Sample.answers "text")) Sample.processor
                  "scan.png" "html" true Sample.world
    = process_image (Sample.env (Sample.answers "text")) Sample.processor
                    "scan.png" "text" true Sample.world
  ∧ (sent (snd (process_image (Sample.env (Sample.answers "text")) Sample.processor
                              "scan.png" "html" true Sample.world))
     = sent Sample.world
     ∨ ∃ image_base64,
         sent (snd (process_image (Sample.env (Sample.answers "text")) Sample.processor
                                  "scan.png" "html" true Sample.world))
         = sent Sample.world
           ++ [(base_url Sample.processor,
                mkPayload (model_name Sample.processor) prompt_text false
                          [image_base64])]).
Proof.
  apply (unknown_format_uses_text_template
           (Sample.env (Sample.answers "text")) Sample.processor
           "scan.png" "html" true Sample.world).
  intros H. repeat (apply elem_of_cons in H as [H | H]; [discriminate H|]).
  by apply not_elem_of_nil in H.
Defined.

(** C6 at its failing input: processing [scan.png] with preprocessing
    leaves the preprocessed image [/tmp/tmpk3x9q2ab.jpg] on disk; processing
    [doc.pdf] while the endpoint fails leaves both the rendered page and the
    preprocessed image. *)
Lemma temporary_files_are_left_behind :
  let ok := snd (process_image (Sample.env (Sample.answers "text")) Sample.processor
                               "scan.png" "text" true Sample.world) in
  let failed := snd (process_image (Sample.env Sample.fails_500) Sample.processor
                                   "doc.pdf" "text" true Sample.world) in
  files Sample.world !! "/tmp/tmpk3x9q2ab.jpg" = None
  ∧ files Sample.world !! "/tmp/tmp0f_z71cd.jpg" = None
  ∧ files ok !! "/tmp/tmpk3x9q2ab.jpg" = Some Sample.png_bytes
  ∧ files failed !! "/tmp/tmpk3x9q2ab.jpg" = Some Sample.pdf_bytes
  ∧ files failed !! "/tmp/tmp0f_z71cd.jpg" = Some Sample.pdf_bytes.
Proof. vm_compute. repeat split; reflexivity. Qed.

(** C8, as amended.  Given a directory, [process_batch] discovers exactly
    the directory entries, regular files and directories alike, whose names
    end in [.png], [.jpg], [.jpeg], [.pdf] or [.tiff]: those of the directory
    itself when [recursive] is false, those of it and of every directory
    below it when [recursive] is true.  Given a single path that is not a
    directory, or a list of paths, every given path is attempted, as
    [Path(p)], with no extension filtering. *)
Theorem discovery_spec (disk : Pathlib.Path → option node) :
  (∀ input_path entries recursive p,
     disk (Pathlib.Path_of input_path) = Some (Dir entries) →
     p ∈ collect_paths disk (Str input_path) recursive ↔
     ∃ dir name kind,
       (if recursive
        then entry_below (Pathlib.Path_of input_path) (Dir entries) dir name kind
        else dir = Pathlib.Path_of input_path ∧ (name, kind) ∈ entries)
       ∧ (∃ ext, ext ∈ [".png"; ".jpg"; ".jpeg"; ".pdf"; ".tiff"]
                 ∧ ∃ stem, name = stem +:+ ext)
       ∧ p = Pathlib.child dir name)
  ∧ (∀ input_path recursive,
       is_dir disk (Pathlib.Path_of input_path) = false →
       collect_paths disk (Str input_path) recursive = [Pathlib.Path_of input_path])
  ∧ (∀ input_paths recursive,
       collect_paths disk (StrList input_paths) recursive
       = map Pathlib.Path_of input_paths).
Proof.
  split; [|split].
  - intros input_path entries recursive p Hdisk.
    rewrite (collect_paths_dir disk input_path entries recursive p Hdisk).
    unfold supported. by setoid_rewrite endswith_spec.
  - intros input_path recursive Hdir. unfold collect_paths. by rewrite Hdir.
  - reflexivity.
Qed.

(** C8 fails as stated: in [scans/], the entry [old.png] is a directory,
    not a file, and it is discovered. *)
Lemma discovery_yields_a_directory :
  collect_paths Sample.disk (Str "scans") false
  = [Pathlib.Path_of "scans/a.png"; Pathlib.Path_of "scans/old.png";
     Pathlib.Path_of "scans/b.jpeg"]
  ∧ Sample.disk (Pathlib.Path_of "scans/old.png") = Some (Dir [("c.jpg", File)])
  ∧ is_dir Sample.disk (Pathlib.Path_of "scans/old.png") = true.
Proof. vm_compute. repeat split; reflexivity. Qed.



(** Scenario D, run: the object comes back over three lines, indented by
    two spaces, and a text that is not JSON comes back as it is. *)
Example scenario_d :
  fst (process_image (Sample.env (Sample.answers scenario_d_answer)) Sample.processor
                     "scan.png" "json" true Sample.world)
  = Returned ("{" +:+ String (ascii_of_nat 10) "  " +:+ dq +:+ "title" +:+ dq +:+ ": "
              +:+ dq +:+ "A" +:+ dq +:+ String (ascii_of_nat 10) "}")
  ∧ fst (process_image (Sample.env (Sample.answers "hello")) Sample.processor
                       "scan.png" "json" true Sample.world)
    = Returned "hello".
Proof. vm_compute. split; reflexivity. Qed.

(** The same directory searched recursively: the image inside the
    directory [old.png] and the one inside [sub] are found too, and
    [notes.txt] and [e.pdf.bak] are not. *)
Example discovery_recursive_sample :
  Pathlib.str <$> collect_paths Sample.disk (Str "scans") true
  = ["scans/a.png"; "scans/old.png"; "scans/old.png/c.jpg"; "scans/b.jpeg";
     "scans/sub/d.tiff"]
  ∧ Pathlib.str <$> collect_paths Sample.disk (Str "./scans/notes.txt") true
    = ["scans/notes.txt"]
  ∧ Pathlib.str <$> collect_paths Sample.disk (StrList ["notes.txt"; "a//b.bin"]) false
    = ["notes.txt"; "a/b.bin"].
Proof. vm_compute. repeat split; reflexivity. Qed.

(** * Further properties of the processor *)

(** ** Steps that leave the disk alone *)

Lemma ask_endpoint_world E self format_type image_base64 w r w' :
  ask_endpoint E self format_type image_base64 w = (r, w') →
  w' = mkWorld (files w) (sent w ++ [request_for self format_type image_base64]).
Proof.
  unfold ask_endpoint, bind, post, request_for.
  destruct (requests_post E _ _) as [response|e]; [|by intros [= _ <-]].
  unfold raise_for_status, response_text.
  destruct (_ && _); [by intros [= _ <-]|].
  destruct (_ && _); [by intros [= _ <-]|].
  unfold ret at 1. destruct (body response) as [[text|]|e]; by intros [= _ <-].
Qed.

Lemma post_process_world E format_type text w r w' :
  post_process E format_type text w = (r, w') → w' = w.
Proof.
  unfold post_process, try_except, bind, lift, ret.
  destruct (String.eqb format_type "json"); [|by intros [= _ <-]].
  destruct (json_loads E text) as [v|e]; [by intros [= _ <-]|].
  destruct (is_JSONDecodeError e); by intros [= _ <-].
Qed.

Lemma request_text_unfold E self image_path format_type preprocess :
  request_text E self image_path format_type preprocess =
  (let* image_path :=
     (if preprocess then _preprocess_image E image_path else ret image_path) in
   let* image_base64 := _encode_image E image_path in
   (if PyStr.endswith_any image_path cleanup_suffixes
    then os_remove image_path else ret tt);;;
   ask_endpoint E self format_type image_base64).
Proof. reflexivity. Qed.

(** The world a call leaves once the file at [path], holding [b], has been
    handed to the encoder: the file is removed when its name ends with one
    of the two suffixes, and one request is logged. *)
Lemma encode_and_ask_world E self path format_type w b r w' :
  files w !! path = Some b →
  (let* image_base64 := _encode_image E path in
   (if PyStr.endswith_any path cleanup_suffixes then os_remove path else ret tt);;;
   ask_endpoint E self format_type image_base64) w = (r, w') →
  w' = mkWorld (if PyStr.endswith_any path cleanup_suffixes
                then delete path (files w) else files w)
               (sent w ++ [request_for self format_type (b64encode E b)]).
Proof.
  intros Hfile. unfold bind at 1, _encode_image, bind at 1, read_file.
  rewrite Hfile. unfold ret at 1. unfold bind at 1.
  destruct (PyStr.endswith_any path cleanup_suffixes).
  - unfold os_remove. rewrite Hfile. intros H. by apply ask_endpoint_world in H.
  - unfold ret. intros H. apply ask_endpoint_world in H. by destruct w.
Qed.

Lemma process_image_world E self image_path format_type preprocess w :
  snd (process_image E self image_path format_type preprocess w)
  = snd (request_text E self image_path format_type preprocess w).
Proof.
  rewrite process_image_unfold. unfold process_image_body, bind.
  destruct (request_text _ _ _ _ _ _) as [[text|e] w1]; [|done].
  destruct (post_process E format_type text w1) as [r w2] eqn:H.
  apply post_process_world in H as ->. by destruct r.
Qed.

Lemma request_text_sent_cases E self image_path format_type preprocess w r w' :
  request_text E self image_path format_type preprocess w = (r, w') →
  (∃ e, r = Raised e ∧ sent w' = sent w)
  ∨ (∃ image_base64, sent w' = sent w ++ [request_for self format_type image_base64]).
Proof.
  rewrite request_text_unfold. intros H.
  assert (Hpre : keeps_sent (if preprocess then _preprocess_image E image_path
                             else ret image_path))
    by (destruct preprocess; auto using keeps_sent_preprocess with frame).
  specialize (Hpre w).
  apply bind_inv in H as [(path & w1 & Hp & H) | (e & Hp & ->)];
    rewrite Hp in Hpre; simpl in Hpre; [|left; eauto].
  pose proof (keeps_sent_encode E path w1) as Henc.
  apply bind_inv in H as [(b64 & w2 & He & H) | (e & He & ->)];
    rewrite He in Henc; simpl in Henc; [|left; exists e; split; [done | congruence]].
  assert (Hclean : keeps_sent (if PyStr.endswith_any path cleanup_suffixes
                               then os_remove path else ret tt))
    by (destruct (PyStr.endswith_any _ _); auto with frame).
  specialize (Hclean w2).
  apply bind_inv in H as [([] & w3 & Hc & H) | (e & Hc & ->)];
    rewrite Hc in Hclean; simpl in Hclean; [|left; exists e; split; [done | congruence]].
  right. exists b64. apply ask_endpoint_world in H as ->. simpl. congruence.
Qed.

(** ** One call, one request *)

(** X1.  A call of [process_image] issues at most one request.  When it
    issues none, it returns the text of a failure; when it issues one, it goes
    to [base_url], names [model_name], carries the template of
    [format_type], asks for no streaming and holds exactly one image. *)
Theorem at_most_one_request
    (E : Env) (self : OCRProcessor) image_path format_type preprocess (w : World) :
  let run := process_image E self image_path format_type preprocess w in
  (sent (snd run) = sent w ∧ ∃ e, fst run = Returned ("处理图片时出错: " +:+ str_exn e))
  ∨ (∃ image_base64,
       sent (snd run)
       = sent w ++ [(base_url self,
                     mkPayload (model_name self) (prompts_get format_type) false
                               [image_base64])]).
Proof.
  intros run. subst run. rewrite process_image_world, process_image_unfold.
  unfold process_image_body, bind.
  destruct (request_text _ _ _ _ _ _) as [r w1] eqn:H.
  apply request_text_sent_cases in H as [(e & -> & Hs) | [b64 Hs]].
  - left. simpl. eauto.
  - right. by exists b64.
Qed.

(** ** Without preprocessing *)

(** X2.  With [preprocess=False] and the file at [image_path] readable, the
    call issues exactly one request, and the image in it is the Base64 text
    of the file's bytes as they are on disk. *)
Theorem raw_image_is_sent_as_stored
    (E : Env) (self : OCRProcessor) image_path format_type (w : World) (b : bytes) :
  files w !! image_path = Some b →
  sent (snd (process_image E self image_path format_type false w))
  = sent w ++ [(base_url self,
                mkPayload (model_name self) (prompts_get format_type) false
                          [b64encode E b])].
Proof.
  intros Hfile. rewrite process_image_world, request_text_unfold.
  unfold bind at 1, ret at 1.
  destruct (bind _ _ w) as [r w'] eqn:H.
  by apply (encode_and_ask_world E self image_path format_type w b) in H as ->.
Qed.

Lemma raw_image_is_sent_as_stored_witness :
  sent (snd (process_image (Sample.env (Sample.answers "text")) Sample.processor
                           "scan.png" "text" false Sample.world))
  = sent Sample.world
    ++ [(base_url Sample.processor,
         mkPayload (model_name Sample.processor) (prompts_get "text") false
                   [b64encode (Sample.env (Sample.answers "text")) Sample.png_bytes])].
Proof.
  apply (raw_image_is_sent_as_stored (Sample.env (Sample.answers "text"))
           Sample.processor "scan.png" "text" Sample.world Sample.png_bytes).
  vm_compute. reflexivity.
Defined.

(** X3.  With [preprocess=False], a readable file whose name ends in
    [_preprocessed.jpg] or [_temp.jpg] is deleted by the call, although the
    caller supplied it: afterwards the disk is the one before without that
    file, whatever the endpoint answers. *)
Theorem cleanup_deletes_the_callers_file
    (E : Env) (self : OCRProcessor) image_path format_type (w : World) (b : bytes) :
  files w !! image_path = Some b →
  PyStr.endswith_any image_path ["_preprocessed.jpg"; "_temp.jpg"] = true →
  files (snd (process_image E self image_path format_type false w))
  = delete image_path (files w).
Proof.
  intros Hfile Hsuffix. rewrite process_image_world, request_text_unfold.
  unfold bind at 1, ret at 1.
  destruct (bind _ _ w) as [r w'] eqn:H.
  apply (encode_and_ask_world E self image_path format_type w b) in H as ->; [|done].
  unfold cleanup_suffixes. by rewrite Hsuffix.
Qed.

Lemma cleanup_deletes_the_callers_file_witness :
  files (snd (process_image (Sample.env Sample.fails_500) Sample.processor
                            "holiday_temp.jpg" "text" false
                            Sample2.world_with_temp_name))
  = delete "holiday_temp.jpg" (files Sample2.world_with_temp_name).
Proof.
  apply (cleanup_deletes_the_callers_file (Sample.env Sample.fails_500)
           Sample.processor "holiday_temp.jpg" "text"
           Sample2.world_with_temp_name Sample.png_bytes).
  - vm_compute. reflexivity.
  - vm_compute. reflexivity.
Defined.

(** X4.  With [preprocess=False] and a name that ends in neither suffix,
    the call leaves the disk exactly as it found it, whether the file exists
    or not and whatever the endpoint answers. *)
Theorem raw_mode_leaves_the_disk_alone
    (E : Env) (self : OCRProcessor) image_path format_type (w : World) :
  PyStr.endswith_any image_path ["_preprocessed.jpg"; "_temp.jpg"] = false →
  files (snd (process_image E self image_path format_type false w)) = files w.
Proof.
  intros Hsuffix. rewrite process_image_world, request_text_unfold.
  unfold bind at 1, ret at 1.
  destruct (files w !! image_path) as [b|] eqn:Hfile.
  - destruct (bind _ _ w) as [r w'] eqn:H.
    apply (encode_and_ask_world E self image_path format_type w b) in H as ->; [|done].
    unfold cleanup_suffixes. by rewrite Hsuffix.
  - unfold bind, _encode_image, bind, read_file. by rewrite Hfile.
Qed.

Lemma raw_mode_leaves_the_disk_alone_witness :
  files (snd (process_image (Sample.env (Sample.answers "text")) Sample.processor
                            "scan.png" "text" false Sample.world))
  = files Sample.world.
Proof.
  apply (raw_mode_leaves_the_disk_alone (Sample.env (Sample.answers "text"))
           Sample.processor "scan.png" "text" Sample.world).
  vm_compute. reflexivity.
Defined.

(** ** With preprocessing: what happens to the disk *)

Lemma try_reraise_inv {A} (m : M A) (wrap : exn → exn) w r w' :
  try_except m is_Exception (λ e, raise (wrap e)) w = (r, w') →
  (∃ a, r = Returned a ∧ m w = (Returned a, w'))
  ∨ (∃ e, r = Raised (wrap e) ∧ m w = (Raised e, w')).
Proof.
  unfold try_except, is_Exception, raise.
  destruct (m w) as [[a|e] w1]; intros [= <- <-]; eauto.
Qed.

Lemma lift_inv {A} (o : outcome A) w r w' : lift o w = (r, w') → r = o ∧ w' = w.
Proof. by intros [= <- <-]. Qed.

Lemma NamedTemporaryFile_inv E suffix w r w' :
  NamedTemporaryFile E suffix w = (r, w') →
  match r with
  | Returned name =>
      temp_name E suffix w = Returned name
      ∧ w' = mkWorld (<[name := []]> (files w)) (sent w)
  | Raised e => w' = w
  end.
Proof.
  unfold NamedTemporaryFile, bind, write_file, ret.
  destruct (temp_name E suffix w) as [name|e]; by intros [= <- <-].
Qed.

Lemma read_image_world E image_path w r w' :
  _read_image E image_path w = (r, w') → w' = w.
Proof.
  unfold _read_image. intros H.
  apply try_reraise_inv in H as [(img0 & _ & H) | (e0 & _ & H)];
    unfold bind, read_file, lift, raise, ret in H;
    (destruct (files w !! _) as [b|]; [|by injection H as _ <-]);
    destruct (imdecode E b) as [[img|]|e']; by injection H as _ <-.
Qed.

Lemma adds_temp_overwrite E w w1 name content :
  adds_temp E w w1 name →
  adds_temp E w (mkWorld (<[name := content]> (files w1)) (sent w1)) name.
Proof.
  intros (c & Hname & ->). exists content. split; [done|]. simpl.
  by rewrite insert_insert_eq.
Qed.

(** Lines 75-92: a run of [enhance] creates the preprocessed file and
    changes nothing else; when it fails it may have created it already. *)
Lemma enhance_inv E image_path w r w' :
  enhance E image_path w = (r, w') →
  match r with
  | Returned name => adds_temp E w w' name
  | Raised e => w' = w ∨ ∃ name, adds_temp E w w' name
  end.
Proof.
  unfold enhance. intros H.
  apply bind_inv in H as [(img & w1 & Hread & H) | (e & Hread & ->)];
    apply read_image_world in Hread as ->; [|by left].
  apply bind_inv in H as [(gray & w1 & [_ ->]%lift_inv & H) | (e & [_ ->]%lift_inv & ->)];
    [|by left].
  apply bind_inv in H as [(enh & w1 & [_ ->]%lift_inv & H) | (e & [_ ->]%lift_inv & ->)];
    [|by left].
  apply bind_inv in H as [(den & w1 & [_ ->]%lift_inv & H) | (e & [_ ->]%lift_inv & ->)];
    [|by left].
  apply bind_inv in H as [(name & w1 & Htemp & H) | (e & Htemp & ->)];
    apply NamedTemporaryFile_inv in Htemp; [|by left].
  destruct Htemp as [Hname ->].
  assert (Hcreated : adds_temp E w (mkWorld (<[name := []]> (files w)) (sent w)) name)
    by (by exists []).
  apply bind_inv in H as [(written & w1 & [_ ->]%lift_inv & H) | (e & [_ ->]%lift_inv & ->)];
    [|right; by exists name].
  destruct written as [jpeg|]; unfold bind, write_file, ret in H; injection H as <- <-.
  - by apply (adds_temp_overwrite E w _ name jpeg) in Hcreated.
  - done.
Qed.

(** Lines 64-72: a run of [render_pdf] hands the path back untouched, or
    creates the file of the rendered page and changes nothing else. *)
Lemma render_pdf_inv E image_path w r w' :
  render_pdf E image_path w = (r, w') →
  match r with
  | Returned path => (path = image_path ∧ w' = w) ∨ adds_temp E w w' path
  | Raised e => w' = w ∨ ∃ name, adds_temp E w w' name
  end.
Proof.
  unfold render_pdf. destruct (PyStr.endswith _ _); [|intros [= <- <-]; by left].
  intros H.
  apply bind_inv in H as [(pages & w1 & Hconv & H) | (e & Hconv & ->)];
    injection Hconv as Hconv <-; [|by left].
  destruct pages as [|page0 pages]; [injection H as <- <-; by left|].
  apply bind_inv in H as [(name & w1 & Htemp & H) | (e & Htemp & ->)];
    apply NamedTemporaryFile_inv in Htemp; [|by left].
  destruct Htemp as [Hname ->].
  assert (Hcreated : adds_temp E w (mkWorld (<[name := []]> (files w)) (sent w)) name)
    by (by exists []).
  apply bind_inv in H as [(jpeg & w1 & [_ ->]%lift_inv & H) | (e & [_ ->]%lift_inv & ->)];
    [|right; by exists name].
  unfold bind, write_file, ret in H. injection H as <- <-.
  right. by apply (adds_temp_overwrite E w _ name jpeg) in Hcreated.
Qed.

(** [_preprocess_image] as a whole: the rendered page, if any, brings the
    world to [w1]; the preprocessed image is added to that. *)
Lemma preprocess_inv E image_path w r w' :
  _preprocess_image E image_path w = (r, w') →
  ∃ w1, (w1 = w ∨ ∃ page, adds_temp E w w1 page)
        ∧ match r with
          | Returned name => adds_temp E w1 w' name
          | Raised e => w' = w1 ∨ ∃ name, adds_temp E w1 w' name
          end.
Proof.
  unfold _preprocess_image. intros H.
  apply bind_inv in H as [(path & w1 & Hpdf & H) | (e & Hpdf & ->)];
    apply try_reraise_inv in Hpdf as [(p0 & Hp0 & Hpdf) | (e' & He' & Hpdf)];
    simplify_eq; apply render_pdf_inv in Hpdf.
  - exists w1. split; [destruct Hpdf as [[_ ->] | Hpdf]; eauto|].
    apply try_reraise_inv in H as [(p1 & -> & H) | (e' & -> & H)];
      by apply enhance_inv in H.
  - exists w. split; [by left|]. done.
Qed.

Lemma adds_temp_grows E w w' name :
  fresh_names E → adds_temp E w w' name →
  files w !! name = None ∧ files w ⊆ files w' ∧ is_Some (files w' !! name).
Proof.
  intros Hfresh (content & Hname & ->). apply Hfresh in Hname. simpl.
  split; [done|]. split; [by apply insert_subseteq|].
  rewrite lookup_insert_eq. eauto.
Qed.

Lemma process_image_preprocess_raised E self image_path format_type w e w1 :
  _preprocess_image E image_path w = (Raised e, w1) →
  process_image E self image_path format_type true w
  = (Returned ("处理图片时出错: " +:+ str_exn e), w1).
Proof.
  intros H. rewrite process_image_unfold.
  unfold process_image_body, request_text, bind. by rewrite H.
Qed.

Lemma read_image_missing E image_path w :
  files w !! _convert_to_short_path E image_path = None →
  _read_image E image_path w
  = (Raised (Exn RuntimeError
               ("读取图片失败: " +:+ image_path +:+ ", 错误: "
                +:+ no_such_file (_convert_to_short_path E image_path))), w).
Proof.
  intros H. unfold _read_image, try_except, bind, read_file. by rewrite H.
Qed.

Lemma read_image_undecodable E image_path w b :
  files w !! _convert_to_short_path E image_path = Some b →
  imdecode E b = Returned None →
  _read_image E image_path w
  = (Raised (Exn RuntimeError
               ("读取图片失败: " +:+ image_path +:+ ", 错误: "
                +:+ "无法读取图片文件: " +:+ image_path)), w).
Proof.
  intros H Hdec. unfold _read_image, try_except, bind, read_file, lift.
  by rewrite H, Hdec.
Qed.

Lemma preprocess_read_failure E image_path w msg :
  PyStr.endswith (PyStr.lower image_path) ".pdf" = false →
  _read_image E image_path w = (Raised (Exn RuntimeError msg), w) →
  _preprocess_image E image_path w
  = (Raised (Exn RuntimeError
               ("预处理图片时出错: " +:+ image_path +:+ ", 错误: " +:+ msg)), w).
Proof.
  intros Hpdf Hread.
  unfold _preprocess_image, bind, try_except, render_pdf. rewrite Hpdf.
  unfold ret at 1. unfold enhance, bind. by rewrite Hread.
Qed.

(** X5.  When [_preprocess_image] succeeds, the path it returns names a
    file that is on disk, so encoding it next cannot fail: it gives the
    Base64 text of that file and changes nothing. *)
Theorem preprocessed_file_can_be_encoded
    (E : Env) image_path (w w' : World) (name : string) :
  _preprocess_image E image_path w = (Returned name, w') →
  ∃ content,
    files w' !! name = Some content
    ∧ _encode_image E name w' = (Returned (b64encode E content), w').
Proof.
  intros H. apply preprocess_inv in H as (w1 & _ & (content & _ & ->)).
  exists content. simpl. split; [apply lookup_insert_eq|].
  unfold _encode_image, bind, read_file, ret. simpl. by rewrite lookup_insert_eq.
Qed.

Lemma preprocessed_file_can_be_encoded_witness :
  ∃ content,
    files (snd (_preprocess_image (Sample.env (Sample.answers "text")) "scan.png"
                                  Sample.world))
      !! "/tmp/tmpk3x9q2ab.jpg" = Some content
    ∧ _encode_image (Sample.env (Sample.answers "text")) "/tmp/tmpk3x9q2ab.jpg"
        (snd (_preprocess_image (Sample.env (Sample.answers "text")) "scan.png"
                                Sample.world))
      = (Returned (b64encode (Sample.env (Sample.answers "text")) content),
         snd (_preprocess_image (Sample.env (Sample.answers "text")) "scan.png"
                                Sample.world)).
Proof.
  apply (preprocessed_file_can_be_encoded (Sample.env (Sample.answers "text"))
           "scan.png" Sample.world).
  vm_compute. reflexivity.
Defined.

(** X6.  With [preprocess=True], and temporary names that are not on disk
    when they are handed out, the call removes and changes no file that
    existed before it: every one is still there, with the same bytes, when
    the call returns, on the failure paths too. *)
Theorem preprocessing_keeps_existing_files
    (E : Env) (self : OCRProcessor) image_path format_type (w : World)
    (p : string) (b : bytes) :
  fresh_names E →
  files w !! p = Some b →
  files (snd (process_image E self image_path format_type true w)) !! p = Some b.
Proof.
  intros Hfresh Hp. rewrite process_image_world, request_text_unfold.
  destruct (bind _ _ w) as [r w'] eqn:H. simpl.
  apply bind_inv in H as [(name & w2 & Hpre & H) | (e & Hpre & _)];
    apply preprocess_inv in Hpre as (w1 & Hw1 & Hw2).
  - assert (H1 : files w ⊆ files w1).
    { destruct Hw1 as [-> | [page Hpage]]; [done|].
      by apply (adds_temp_grows E w w1 page Hfresh) in Hpage as (_ & ? & _). }
    apply (adds_temp_grows E w1 w2 name Hfresh) in Hw2 as (Hnew & H2 & [content Hc]).
    apply (encode_and_ask_world E self name format_type w2 content) in H as ->; [|done].
    cbn [files]. assert (Hold : files w2 !! p = Some b).
    { eapply lookup_weaken; [|exact H2]. eapply lookup_weaken; [exact Hp | exact H1]. }
    destruct (PyStr.endswith_any name cleanup_suffixes); [|done].
    rewrite lookup_delete_ne; [done|]. intros ->.
    eapply lookup_weaken in Hp; [|exact H1]. congruence.
  - assert (H1 : files w ⊆ files w1).
    { destruct Hw1 as [-> | [page Hpage]]; [done|].
      by apply (adds_temp_grows E w w1 page Hfresh) in Hpage as (_ & ? & _). }
    assert (H2 : files w1 ⊆ files w').
    { destruct Hw2 as [-> | [name Hname]]; [done|].
      by apply (adds_temp_grows E w1 w' name Hfresh) in Hname as (_ & ? & _). }
    eapply lookup_weaken; [|exact H2]. eapply lookup_weaken; [exact Hp | exact H1].
Qed.

Lemma fresh_env_is_fresh reply : fresh_names (Sample2.fresh_env reply).
Proof. intros suffix w name [= <-]. apply fresh_string_fresh. Qed.

Lemma preprocessing_keeps_existing_files_witness :
  files (snd (process_image (Sample2.fresh_env Sample.fails_500) Sample.processor
                            "doc.pdf" "text" true Sample.world)) !! "doc.pdf"
  = Some Sample.pdf_bytes.
Proof.
  apply (preprocessing_keeps_existing_files (Sample2.fresh_env Sample.fails_500)
           Sample.processor "doc.pdf" "text" Sample.world "doc.pdf" Sample.pdf_bytes).
  - apply fresh_env_is_fresh.
  - vm_compute. reflexivity.
Defined.

(** ** Inputs that cannot be read *)

(** X7.  A PDF that renders to no page is reported as text: the call
    returns the message of [_preprocess_image] around
    ["无法将 PDF 转换为图片"], creates no file and issues no request. *)
Theorem pdf_without_pages_is_reported
    (E : Env) (self : OCRProcessor) image_path format_type (w : World) :
  PyStr.endswith (PyStr.lower image_path) ".pdf" = true →
  convert_from_path E image_path w = Returned [] →
  process_image E self image_path format_type true w
  = (Returned ("处理图片时出错: 预处理图片时出错: " +:+ image_path
               +:+ ", 错误: 无法将 PDF 转换为图片"), w).
Proof.
  intros Hpdf Hpages.
  apply (process_image_preprocess_raised E self image_path format_type w
           (Exn RuntimeError ("预处理图片时出错: " +:+ image_path
                              +:+ ", 错误: 无法将 PDF 转换为图片")) w).
  unfold _preprocess_image, bind, try_except, render_pdf. rewrite Hpdf.
  unfold bind. by rewrite Hpages.
Qed.

Lemma pdf_without_pages_is_reported_witness :
  process_image (Sample2.blank_pdf_env (Sample.answers "text")) Sample.processor
                "doc.PDF" "text" true Sample.world
  = (Returned ("处理图片时出错: 预处理图片时出错: " +:+ "doc.PDF"
               +:+ ", 错误: 无法将 PDF 转换为图片"), Sample.world).
Proof.
  apply (pdf_without_pages_is_reported (Sample2.blank_pdf_env (Sample.answers "text"))
           Sample.processor "doc.PDF" "text" Sample.world).
  - vm_compute. reflexivity.
  - reflexivity.
Defined.



(** X9.  A file whose bytes do not decode to an image (a corrupt or empty
    file: [cv2.imdecode] gives [None]) is reported as text, with the message
    ["无法读取图片文件"] wrapped twice, and nothing else happens: no file is
    created, no request is issued. *)
Theorem undecodable_file_is_reported
    (E : Env) (self : OCRProcessor) image_path format_type (w : World) (b : bytes) :
  files w !! _convert_to_short_path E image_path = Some b →
  imdecode E b = Returned None →
  PyStr.endswith (PyStr.lower image_path) ".pdf" = false →
  process_image E self image_path format_type true w
  = (Returned ("处理图片时出错: 预处理图片时出错: " +:+ image_path
               +:+ ", 错误: 读取图片失败: " +:+ image_path
               +:+ ", 错误: 无法读取图片文件: " +:+ image_path), w).
Proof.
  intros Hfile Hdec Hpdf.
  pose proof (read_image_undecodable E image_path w b Hfile Hdec) as Hread.
  apply (preprocess_read_failure E image_path w _ Hpdf) in Hread.
  by apply (process_image_preprocess_raised E self image_path format_type) in Hread.
Qed.

Lemma undecodable_file_is_reported_witness :
  process_image (Sample.env (Sample.answers "text")) Sample.processor
                "empty.png" "text" true Sample.world
  = (Returned ("处理图片时出错: 预处理图片时出错: " +:+ "empty.png"
               +:+ ", 错误: 读取图片失败: " +:+ "empty.png"
               +:+ ", 错误: 无法读取图片文件: " +:+ "empty.png"), Sample.world).
Proof.
  apply (undecodable_file_is_reported (Sample.env (Sample.answers "text"))
           Sample.processor "empty.png" "text" Sample.world []).
  - vm_compute. reflexivity.
  - reflexivity.
  - vm_compute. reflexivity.
Defined.

(** ** The batch: empty scans, own results, completion order *)

Lemma NoDup_fmap_elem_inj {A B} (g : A → B) (l : list A) (x y : A) :
  NoDup (g <$> l) → x ∈ l → y ∈ l → g x = g y → x = y.
Proof.
  intros Hnd [i Hi]%list_elem_of_lookup_1 [j Hj]%list_elem_of_lookup_1 Hg.
  assert (i = j).
  { eapply (NoDup_lookup (g <$> l) i j (g x)); [done| |].
    - by rewrite list_lookup_fmap, Hi.
    - by rewrite list_lookup_fmap, Hj, Hg. }
  congruence.
Qed.

(** With distinct keys, the loop leaves each future's value under its key. *)
Lemma record_futures_own (fs : list Future) (f : Future) (v : string) :
  Forall returned fs → NoDup (future_key <$> fs) →
  f ∈ fs → future_result f = Returned v →
  fst (foldl record_future (∅, ∅) fs) !! future_key f = Some v.
Proof.
  intros Hall Hnd Hf Hv.
  destruct (record_futures_returned fs ∅ ∅ Hall) as [_ Hdom].
  assert (Hin : future_key f ∈ dom (fst (foldl record_future (∅, ∅) fs))).
  { rewrite Hdom, dom_empty_L, elem_of_union, elem_of_list_to_set. right.
    by apply list_elem_of_fmap_2. }
  apply elem_of_dom in Hin as [v' Hv'].
  destruct (record_futures_value fs ∅ ∅ _ _ Hv') as [Habs | (f' & Hf' & Hk & Hr)].
  - by rewrite lookup_empty in Habs.
  - assert (f' = f) by (eapply (NoDup_fmap_elem_inj future_key); eauto).
    subst f'. congruence.
Qed.

Section BatchExtras.

Variable self : OCRProcessor.
Variable disk : Pathlib.Path → option node.
Variable task_env : nat → Env.
Variable task_world : nat → World.

Lemma futures_keys_list finished format_type preprocess (paths : list Pathlib.Path) :
  future_key <$> imap (submit self task_env task_world finished format_type preprocess)
                      paths
  = Pathlib.str <$> paths.
Proof.
  rewrite fmap_imap. rewrite <- imap_const. by apply imap_ext.
Qed.

Lemma batch_own_result finished input_path format_type recursive preprocess i path v :
  NoDup (Pathlib.str <$> collect_paths disk input_path recursive) →
  collect_paths disk input_path recursive !! i = Some path →
  fst (process_image (task_env i) self (Pathlib.str path) format_type preprocess
                     (task_world i)) = Returned v →
  results (process_batch self disk task_env task_world finished
             input_path format_type recursive preprocess) !! Pathlib.str path
  = Some v.
Proof.
  intros Hnd Hi Hv. unfold process_batch.
  set (paths := collect_paths disk input_path recursive) in *.
  set (futures := imap (submit self task_env task_world finished format_type preprocess)
                       paths).
  pose proof (record_futures_own (as_completed futures)
                (submit self task_env task_world finished format_type preprocess i path) v)
    as Hown.
  destruct (foldl record_future _ _) as [R Er]. simpl in *.
  apply Hown.
  - apply futures_returned.
  - unfold as_completed. rewrite merge_sort_Permutation.
    subst futures. by rewrite futures_keys_list.
  - unfold as_completed. rewrite merge_sort_Permutation.
    apply elem_of_lookup_imap. eauto.
  - done.
Qed.

(** X10.  A directory in which no entry (below it too, when [recursive] is
    true) has a name with one of the five extensions gives the empty report:
    no results, no errors, and all three counts zero. *)
Theorem empty_scan_gives_empty_report
    finished (input_path : string) (entries : list (string * node))
    format_type (recursive preprocess : bool) :
  disk (Pathlib.Path_of input_path) = Some (Dir entries) →
  (∀ (dir : Pathlib.Path) (name : string) (kind : node),
     (if recursive
      then entry_below (Pathlib.Path_of input_path) (Dir entries) dir name kind
      else dir = Pathlib.Path_of input_path ∧ (name, kind) ∈ entries) →
     ∀ ext, ext ∈ [".png"; ".jpg"; ".jpeg"; ".pdf"; ".tiff"] →
            PyStr.endswith name ext = false) →
  process_batch self disk task_env task_world finished
    (Str input_path) format_type recursive preprocess
  = mkBatchReport ∅ ∅ (mkStatistics 0 0 0).
Proof.
  intros Hdisk Hnone.
  assert (Hpaths : collect_paths disk (Str input_path) recursive = []).
  { apply elem_of_nil_inv. intros p Hp.
    apply (collect_paths_dir disk input_path entries recursive p Hdisk) in Hp
      as (dir & name & kind & Hwhere & (ext & Hext & Hends) & _).
    rewrite (Hnone dir name kind Hwhere ext Hext) in Hends. discriminate Hends. }
  unfold process_batch. rewrite Hpaths. reflexivity.
Qed.

(** X11.  When no two discovered paths have the same string form, every
    discovered path is a key of [results] and its value is what the call
    submitted for that very path returned, whatever the order in which the
    calls finish. *)
Theorem each_path_gets_its_own_result
    finished input_path format_type recursive preprocess (i : nat) (path : Pathlib.Path) :
  NoDup (Pathlib.str <$> collect_paths disk input_path recursive) →
  collect_paths disk input_path recursive !! i = Some path →
  ∃ v,
    fst (process_image (task_env i) self (Pathlib.str path) format_type preprocess
                       (task_world i)) = Returned v
    ∧ results (process_batch self disk task_env task_world finished
                 input_path format_type recursive preprocess) !! Pathlib.str path
      = Some v.
Proof.
  intros Hnd Hi.
  destruct (process_image_returns (task_env i) self (Pathlib.str path) format_type
              preprocess (task_world i)) as [v Hv].
  exists v. split; [done|]. by eapply batch_own_result.
Qed.

(** X12.  When no two discovered paths have the same string form, the
    report does not depend on the order in which the calls finish: any two
    schedules give the same [results], [errors] and [statistics]. *)
Theorem report_ignores_completion_order
    finished finished' input_path format_type recursive preprocess :
  NoDup (Pathlib.str <$> collect_paths disk input_path recursive) →
  process_batch self disk task_env task_world finished
    input_path format_type recursive preprocess
  = process_batch self disk task_env task_world finished'
      input_path format_type recursive preprocess.
Proof.
  intros Hnd.
  destruct (process_batch_report self disk task_env task_world finished
              input_path format_type recursive preprocess) as (HE & HR & HS).
  destruct (process_batch_report self disk task_env task_world finished'
              input_path format_type recursive preprocess) as (HE' & HR' & HS').
  assert (Hres : results (process_batch self disk task_env task_world finished
                            input_path format_type recursive preprocess)
                 = results (process_batch self disk task_env task_world finished'
                              input_path format_type recursive preprocess)).
  { apply map_eq. intros k.
    destruct (decide (k ∈ Pathlib.str <$> collect_paths disk input_path recursive))
      as [Hk | Hk].
    - apply list_elem_of_fmap in Hk as (path & -> & [i Hi]%list_elem_of_lookup_1).
      destruct (process_image_returns (task_env i) self (Pathlib.str path) format_type
                  preprocess (task_world i)) as [v Hv].
      rewrite (batch_own_result finished _ _ _ _ i path v Hnd Hi Hv).
      by rewrite (batch_own_result finished' _ _ _ _ i path v Hnd Hi Hv).
    - assert (Hnot : ∀ r : BatchReport,
                dom (results r)
                = list_to_set (Pathlib.str <$> collect_paths disk input_path recursive) →
                results r !! k = None).
      { intros r Hr. apply not_elem_of_dom. rewrite Hr, elem_of_list_to_set. done. }
      by rewrite (Hnot _ HR), (Hnot _ HR'). }
  destruct (process_batch _ _ _ _ finished _ _ _ _) as [R Er S].
  destruct (process_batch _ _ _ _ finished' _ _ _ _) as [R' Er' S'].
  simpl in *. congruence.
Qed.

(** X13.  Searching a directory recursively finds every path the plain
    search finds: turning [recursive] on never loses an input. *)
Theorem recursive_scan_finds_more (input_path : string) :
  collect_paths disk (Str input_path) false ⊆ collect_paths disk (Str input_path) true.
Proof.
  intros p.
  destruct (disk (Pathlib.Path_of input_path)) as [[|entries]|] eqn:Hdisk.
  - unfold collect_paths, is_dir. by rewrite Hdisk.
  - intros Hp.
    apply (collect_paths_dir disk input_path entries false p Hdisk) in Hp
      as (dir & name & kind & [-> Hin] & Hsup & ->).
    apply (collect_paths_dir disk input_path entries true _ Hdisk).
    exists (Pathlib.Path_of input_path), name, kind.
    split; [by constructor | done].
  - unfold collect_paths, is_dir. by rewrite Hdisk.
Qed.

End BatchExtras.

Lemma empty_scan_gives_empty_report_witness :
  process_batch Sample.processor Sample2.text_only_disk
    (λ _, Sample.env (Sample.answers "text")) (λ _, Sample.world) (λ i, i)
    (Str "docs") "text" false true
  = mkBatchReport ∅ ∅ (mkStatistics 0 0 0).
Proof.
  apply (empty_scan_gives_empty_report Sample.processor Sample2.text_only_disk
           (λ _, Sample.env (Sample.answers "text")) (λ _, Sample.world) (λ i, i)
           "docs" [("notes.txt", File)] "text" false true).
  - reflexivity.
  - intros dir name kind [_ Hin] ext Hext.
    apply list_elem_of_singleton in Hin as [= -> ->].
    repeat (apply elem_of_cons in Hext as [-> | Hext]; [vm_compute; reflexivity|]).
    by apply not_elem_of_nil in Hext.
Defined.

Lemma each_path_gets_its_own_result_witness :
  ∃ v,
    fst (process_image (Sample.env Sample.fails_500) Sample.processor
                       (Pathlib.str (Pathlib.Path_of "doc.pdf")) "text" false
                       Sample.world) = Returned v
    ∧ results (sample_batch Sample.fails_500 (StrList ["scan.png"; "doc.pdf"])
                            "text" false false)
        !! Pathlib.str (Pathlib.Path_of "doc.pdf")
      = Some v.
Proof.
  apply (each_path_gets_its_own_result Sample.processor Sample.disk
           (λ _, Sample.env Sample.fails_500) (λ _, Sample.world) (λ i, i)
           (StrList ["scan.png"; "doc.pdf"]) "text" false false 1
           (Pathlib.Path_of "doc.pdf")).
  - apply (bool_decide_unpack _). vm_compute. exact I.
  - reflexivity.
Defined.

Lemma report_ignores_completion_order_witness :
  process_batch Sample.processor Sample.disk
    (λ _, Sample.env Sample.fails_500) (λ _, Sample.world) (λ i, i)
    (StrList ["scan.png"; "doc.pdf"]) "text" false false
  = process_batch Sample.processor Sample.disk
      (λ _, Sample.env Sample.fails_500) (λ _, Sample.world) (λ i, 9 - i)
      (StrList ["scan.png"; "doc.pdf"]) "text" false false.
Proof.
  apply (report_ignores_completion_order Sample.processor Sample.disk
           (λ _, Sample.env Sample.fails_500) (λ _, Sample.world)
           (λ i, i) (λ i, 9 - i)
           (StrList ["scan.png"; "doc.pdf"]) "text" false false).
  apply (bool_decide_unpack _). vm_compute. exact I.
Defined.

(** ** The wrapper of the interface *)

(** X14.  [process_single_image] of [app.py] adds nothing to
    [process_image]: it returns the same text and leaves the same world, and
    its own handler is never taken. *)
Theorem single_image_wrapper_adds_nothing
    (E : Env) (processor : OCRProcessor) image_path format_type
    enable_preprocessing (w : World) :
  process_single_image E processor image_path format_type enable_preprocessing w
  = process_image E processor image_path format_type enable_preprocessing w.
Proof.
  unfold process_single_image, try_except.
  destruct (process_image_returns E processor image_path format_type
              enable_preprocessing w) as [s Hs].
  destruct (process_image _ _ _ _ _ _) as [r w']. simpl in Hs. by subst r.
Qed.

(** ** What the endpoint's answer becomes *)

Lemma raw_answer E self image_path format_type w b :
  files w !! image_path = Some b →
  ∃ w3,
    process_image_body E self image_path format_type false w
    = bind (ask_endpoint E self format_type (b64encode E b))
           (post_process E format_type) w3.
Proof.
  intros Hfile.
  assert (Hclean : ∃ w3, (if PyStr.endswith_any image_path cleanup_suffixes
                          then os_remove image_path else ret tt) w = (Returned tt, w3)).
  { destruct (PyStr.endswith_any _ _); [|by eexists].
    unfold os_remove. rewrite Hfile. by eexists. }
  destruct Hclean as [w3 Hclean]. exists w3.
  unfold process_image_body. rewrite request_text_unfold.
  unfold bind, ret, _encode_image, bind, read_file, ret in *.
  by rewrite Hfile, Hclean.
Qed.

(** X15.  Without preprocessing, for a readable file and any format but
    ["json"], an answer whose status is no HTTP error gives back exactly the
    text of its ["response"] field, and the empty string when the field is
    missing; the text is not parsed or trimmed. *)
Theorem answer_text_is_returned_verbatim
    (E : Env) (self : OCRProcessor) image_path format_type (w : World)
    (b : bytes) (r : Response) (field : option string) :
  files w !! image_path = Some b →
  requests_post E (base_url self)
    (mkPayload (model_name self) (prompts_get format_type) false [b64encode E b])
  = Returned r →
  status_code r < 400 ∨ 600 ≤ status_code r →
  body r = Returned field →
  format_type ≠ "json" →
  fst (process_image E self image_path format_type false w)
  = Returned (default "" field).
Proof.
  intros Hfile Hpost Hstatus Hbody Hjson.
  rewrite process_image_unfold.
  destruct (raw_answer E self image_path format_type w b Hfile) as [w3 ->].
  unfold bind, ask_endpoint, bind, post. rewrite Hpost.
  unfold raise_for_status.
  replace ((400 <=? status_code r) && (status_code r <? 500)) with false
    by (symmetry; apply andb_false_iff; rewrite Nat.leb_gt, Nat.ltb_ge; lia).
  replace ((500 <=? status_code r) && (status_code r <? 600)) with false
    by (symmetry; apply andb_false_iff; rewrite Nat.leb_gt, Nat.ltb_ge; lia).
  unfold ret at 1. unfold response_text. rewrite Hbody.
  unfold post_process. apply String.eqb_neq in Hjson. rewrite Hjson.
  by destruct field.
Qed.

Lemma answer_text_is_returned_verbatim_witness :
  fst (process_image (Sample.env Sample2.answers_nothing) Sample.processor
                     "scan.png" "markdown" false Sample.world)
  = Returned (default "" None).
Proof.
  apply (answer_text_is_returned_verbatim (Sample.env Sample2.answers_nothing)
           Sample.processor "scan.png" "markdown" Sample.world Sample.png_bytes
           (mkResponse 200 "OK" (base_url Sample.processor) (Returned None)) None).
  - vm_compute. reflexivity.
  - reflexivity.
  - left. simpl. lia.
  - reflexivity.
  - discriminate.
Defined.

(** X16.  Without preprocessing, for a readable file, an answer with a
    status from 400 to 599 is reported as text, ["Client Error"] below 500 and
    ["Server Error"] from 500 on, for every format and whatever the body of
    the answer holds. *)
Theorem http_error_status_is_reported
    (E : Env) (self : OCRProcessor) image_path format_type (w : World)
    (b : bytes) (r : Response) :
  files w !! image_path = Some b →
  requests_post E (base_url self)
    (mkPayload (model_name self) (prompts_get format_type) false [b64encode E b])
  = Returned r →
  400 ≤ status_code r < 600 →
  fst (process_image E self image_path format_type false w)
  = Returned ("处理图片时出错: " +:+ pretty (status_code r)
              +:+ (if status_code r <? 500 then " Client Error: " else " Server Error: ")
              +:+ reason r +:+ " for url: " +:+ url r).
Proof.
  intros Hfile Hpost Hstatus.
  rewrite process_image_unfold.
  destruct (raw_answer E self image_path format_type w b Hfile) as [w3 ->].
  unfold bind, ask_endpoint, bind, post. rewrite Hpost.
  unfold raise_for_status.
  destruct (status_code r <? 500) eqn:Hlt.
  - replace (400 <=? status_code r) with true by (symmetry; apply Nat.leb_le; lia).
    reflexivity.
  - replace (400 <=? status_code r) with true by (symmetry; apply Nat.leb_le; lia).
    replace (500 <=? status_code r) with true
      by (symmetry; apply Nat.leb_le; apply Nat.ltb_ge in Hlt; lia).
    replace (status_code r <? 600) with true by (symmetry; apply Nat.ltb_lt; lia).
    reflexivity.
Qed.

Lemma http_error_status_is_reported_witness :
  fst (process_image (Sample.env Sample.fails_500) Sample.processor
                     "scan.png" "json" false Sample.world)
  = Returned ("处理图片时出错: " +:+ pretty 500
              +:+ (if 500 <? 500 then " Client Error: " else " Server Error: ")
              +:+ "Internal Server Error" +:+ " for url: "
              +:+ base_url Sample.processor).
Proof.
  apply (http_error_status_is_reported (Sample.env Sample.fails_500)
           Sample.processor "scan.png" "json" Sample.world Sample.png_bytes
           (mkResponse 500 "Internal Server Error" (base_url Sample.processor)
              (Raised (Exn ValueError "Expecting value: line 1 column 1 (char 0)")))).
  - vm_compute. reflexivity.
  - reflexivity.
  - simpl. lia.
Defined.

(** ** Directory scans list no path twice *)

Lemma drop_drop (a b : nat) (s : string) :
  PyStr.drop a (PyStr.drop b s) = PyStr.drop (b + a) s.
Proof.
  revert s. induction b as [|b IH]; intros s; [done|].
  destruct s as [|c s]; simpl; [by destruct a | apply IH].
Qed.

(** Of two suffixes of one string, the shorter is a suffix of the longer. *)
Lemma endswith_both (name a b : string) :
  PyStr.endswith name a = true → PyStr.endswith name b = true →
  String.length a ≤ String.length b →
  a = PyStr.drop (String.length b - String.length a) b.
Proof.
  unfold PyStr.endswith. rewrite !andb_true_iff, !Nat.leb_le, !String.eqb_eq.
  intros [Ha <-] [Hb <-] Hab.
  rewrite drop_drop. f_equal.
  pose proof (drop_split (String.length name - String.length b) name) as (p & Hp & Hlen);
    [lia|].
  assert (String.length name
          = String.length p
            + String.length (PyStr.drop (String.length name - String.length b) name))
    by (rewrite Hp at 1; apply string_length_app).
  pose proof (drop_split (String.length name - String.length a) name) as (q & Hq & Hlenq);
    [lia|].
  assert (String.length name
          = String.length q
            + String.length (PyStr.drop (String.length name - String.length a) name))
    by (rewrite Hq at 1; apply string_length_app).
  lia.
Qed.

(** No name ends with two of the five extensions. *)
Lemma one_extension_per_name (name e1 e2 : string) :
  e1 ∈ extensions → e2 ∈ extensions →
  PyStr.endswith name e1 = true → PyStr.endswith name e2 = true → e1 = e2.
Proof.
  intros H1 H2 He1 He2.
  destruct (decide (String.length e1 ≤ String.length e2)) as [Hle | Hgt].
  - pose proof (endswith_both name e1 e2 He1 He2 Hle) as Heq. clear He1 He2.
    unfold extensions in *.
    repeat (apply elem_of_cons in H1 as [-> | H1]);
      try (by apply not_elem_of_nil in H1);
      repeat (apply elem_of_cons in H2 as [-> | H2]);
      try (by apply not_elem_of_nil in H2);
      first [reflexivity | discriminate Heq | simpl in Hle; lia].
  - pose proof (endswith_both name e2 e1 He2 He1 ltac:(lia)) as Heq. clear He1 He2.
    unfold extensions in *.
    repeat (apply elem_of_cons in H1 as [-> | H1]);
      try (by apply not_elem_of_nil in H1);
      repeat (apply elem_of_cons in H2 as [-> | H2]);
      try (by apply not_elem_of_nil in H2);
      first [reflexivity | discriminate Heq | simpl in Hgt; lia].
Qed.

Lemma has_slash_app (x a : string) : has_slash (x +:+ String "/" a) = true.
Proof.
  induction x as [|c x IH]; [done|].
  change (has_slash (String c (x +:+ String "/" a)) = true).
  simpl. rewrite IH. apply orb_true_r.
Qed.

(** Two texts that agree up to their first slash. *)
Lemma split_at_slash (x1 x2 a b : string) :
  has_slash x1 = false → has_slash x2 = false →
  x1 +:+ String "/" a = x2 +:+ String "/" b → x1 = x2 ∧ a = b.
Proof.
  revert x2. induction x1 as [|c1 x1 IH]; intros [|c2 x2] H1 H2 Heq.
  - by injection Heq as ->.
  - change (String "/" a = String c2 (x2 +:+ String "/" b)) in Heq.
    injection Heq as <- _. discriminate H2.
  - change (String c1 (x1 +:+ String "/" a) = String "/" b) in Heq.
    injection Heq as -> _. discriminate H1.
  - change (String c1 (x1 +:+ String "/" a) = String c2 (x2 +:+ String "/" b)) in Heq.
    injection Heq as -> Heq. simpl in H1, H2.
    apply orb_false_iff in H1 as [_ H1]. apply orb_false_iff in H2 as [_ H2].
    destruct (IH x2 H1 H2 Heq) as [-> ->]. done.
Qed.

Lemma join_cons (sep p : string) (rest : list string) :
  rest ≠ [] → PyStr.join sep (p :: rest) = p +:+ sep +:+ PyStr.join sep rest.
Proof. by destruct rest. Qed.

Lemma join_app (sep : string) (l1 l2 : list string) :
  l1 ≠ [] → l2 ≠ [] →
  PyStr.join sep (l1 ++ l2) = PyStr.join sep l1 +:+ sep +:+ PyStr.join sep l2.
Proof.
  intros H1 H2. induction l1 as [|x l1 IH]; [done|].
  destruct l1 as [|y l1].
  - simpl app. by rewrite join_cons.
  - change ((x :: y :: l1) ++ l2) with (x :: ((y :: l1) ++ l2)).
    rewrite join_cons by done. rewrite IH by done.
    rewrite (join_cons sep x (y :: l1)) by done.
    by rewrite !string_app_assoc.
Qed.

Lemma join_slash_inj (l1 l2 : list string) :
  Forall (λ x, has_slash x = false) l1 → Forall (λ x, has_slash x = false) l2 →
  l1 ≠ [] → l2 ≠ [] →
  PyStr.join "/" l1 = PyStr.join "/" l2 → l1 = l2.
Proof.
  intros H1. revert l2. induction H1 as [|x1 r1 Hx1 Hr1 IH]; [done|].
  intros l2 H2 _ Hne Heq. destruct H2 as [|x2 r2 Hx2 Hr2]; [done|].
  destruct r1 as [|y1 r1], r2 as [|y2 r2].
  - simpl in Heq. by subst.
  - rewrite (join_cons "/" x2 (y2 :: r2)) in Heq by done. simpl in Heq.
    subst x1. change ("/" +:+ ?s) with (String "/" s) in Hx1.
    by rewrite has_slash_app in Hx1.
  - rewrite (join_cons "/" x1 (y1 :: r1)) in Heq by done. simpl in Heq.
    subst x2. change ("/" +:+ ?s) with (String "/" s) in Hx2.
    by rewrite has_slash_app in Hx2.
  - rewrite (join_cons "/" x1 (y1 :: r1)), (join_cons "/" x2 (y2 :: r2)) in Heq by done.
    change ("/" +:+ ?s) with (String "/" s) in Heq.
    destruct (split_at_slash _ _ _ _ Hx1 Hx2 Heq) as [-> Hrest].
    f_equal. by apply IH.
Qed.

Lemma join_nonempty (sep x : string) (rest : list string) :
  x ≠ "" → PyStr.join sep (x :: rest) ≠ "".
Proof.
  intros Hx Heq. destruct x as [|c x]; [done|].
  destruct rest; simpl in Heq; [done|].
  change (String c (x +:+ sep +:+ PyStr.join sep (s :: rest)) = "") in Heq. done.
Qed.

Lemma valid_name_inv (name : string) :
  valid_name name = true → name ≠ "" ∧ has_slash name = false.
Proof.
  unfold valid_name. rewrite andb_true_iff, !negb_true_iff, String.eqb_neq. done.
Qed.

(** The string of a path below [base] is the prefix of [base] followed by
    the relative names. *)
Lemma str_under (base : Pathlib.Path) (rel : list string) :
  rel ≠ [] → Forall (λ x, valid_name x = true) rel →
  Pathlib.str (under base rel) = str_prefix base +:+ PyStr.join "/" rel.
Proof.
  intros Hne Hvalid. unfold Pathlib.str, under, str_prefix. cbn [Pathlib.root Pathlib.parts].
  assert (Hjoin : PyStr.join "/" rel ≠ "").
  { destruct Hvalid as [|x rest Hx _]; [done|].
    apply join_nonempty. by apply valid_name_inv in Hx as [? _]. }
  assert (Hs : Pathlib.root base +:+ PyStr.join "/" (Pathlib.parts base ++ rel)
               = Pathlib.root base
                 +:+ match Pathlib.parts base with
                     | [] => ""
                     | _ => PyStr.join "/" (Pathlib.parts base) +:+ "/"
                     end +:+ PyStr.join "/" rel).
  { destruct (Pathlib.parts base) as [|p ps] eqn:Hparts; [done|].
    rewrite join_app by done. by rewrite !string_app_assoc. }
  rewrite Hs.
  destruct (String.eqb_spec
              (Pathlib.root base
               +:+ match Pathlib.parts base with
                   | [] => ""
                   | _ => PyStr.join "/" (Pathlib.parts base) +:+ "/"
                   end +:+ PyStr.join "/" rel) "") as [Hempty | _].
  - apply (f_equal String.length) in Hempty.
    rewrite !string_length_app in Hempty. simpl in Hempty.
    destruct (PyStr.join "/" rel); [done | simpl in Hempty; lia].
  - by rewrite !string_app_assoc.
Qed.

Lemma str_under_inj (base : Pathlib.Path) (r1 r2 : list string) :
  r1 ≠ [] → Forall (λ x, valid_name x = true) r1 →
  r2 ≠ [] → Forall (λ x, valid_name x = true) r2 →
  Pathlib.str (under base r1) = Pathlib.str (under base r2) → r1 = r2.
Proof.
  intros Hne1 Hv1 Hne2 Hv2. rewrite !str_under by done.
  intros Heq%(inj (String.app _)).
  apply join_slash_inj; [| |done..].
  - eapply Forall_impl; [exact Hv1|]. intros x Hx. by apply valid_name_inv in Hx as [_ ?].
  - eapply Forall_impl; [exact Hv2|]. intros x Hx. by apply valid_name_inv in Hx as [_ ?].
Qed.

(** *** What the two patterns find, as relative names *)

Lemma under_child (base : Pathlib.Path) (name : string) (rel : list string) :
  under (Pathlib.child base name) rel = under base (name :: rel).
Proof. unfold under, Pathlib.child. simpl. by rewrite <- app_assoc. Qed.

Lemma glob_star_rel (base : Pathlib.Path) entries ext :
  glob_star base entries ext = map (under base) (rel_star entries ext).
Proof. unfold glob_star, rel_star. by rewrite map_map. Qed.

Lemma glob_starstar_rel ext n : ∀ base,
  glob_starstar base n ext = map (under base) (rel_starstar n ext).
Proof.
  induction n as [|entries IH] using node_nested_ind; intros base; [done|].
  cbn [glob_starstar rel_starstar]. rewrite map_app, glob_star_rel. f_equal.
  induction IH as [|[name sub] es Hsub _ IHes]; [done|].
  cbn [flat_map fst snd]. rewrite map_app, IHes. simpl in Hsub. rewrite Hsub, map_map.
  f_equal. apply map_ext. intros rel. apply under_child.
Qed.

Lemma elem_of_rel_star entries ext r :
  r ∈ rel_star entries ext ↔
  ∃ name kind, (name, kind) ∈ entries ∧ PyStr.endswith name ext = true ∧ r = [name].
Proof.
  unfold rel_star. rewrite list_elem_of_In, in_map_iff. split.
  - intros ([name kind] & <- & Hin). apply list_elem_of_In, list_elem_of_filter in Hin.
    destruct Hin as [Hext Hin]. simpl in *. by exists name, kind.
  - intros (name & kind & Hin & Hext & ->). exists (name, kind). split; [done|].
    apply list_elem_of_In, list_elem_of_filter. done.
Qed.

Lemma elem_of_rel_below entries ext r :
  r ∈ flat_map (λ e, map (cons (fst e)) (rel_starstar (snd e) ext)) entries ↔
  ∃ name sub r', (name, sub) ∈ entries ∧ r' ∈ rel_starstar sub ext ∧ r = name :: r'.
Proof.
  rewrite list_elem_of_In, in_flat_map. split.
  - intros ([name sub] & Hin & Hr). apply in_map_iff in Hr as (r' & <- & Hr').
    exists name, sub, r'. by rewrite !list_elem_of_In.
  - intros (name & sub & r' & Hin & Hr' & ->). exists (name, sub).
    rewrite <- list_elem_of_In. split; [done|].
    apply in_map_iff. exists r'. by rewrite <- list_elem_of_In.
Qed.

Lemma well_formed_Dir entries :
  well_formed (Dir entries) = true ↔
  NoDup (map fst entries)
  ∧ Forall (λ e, valid_name (fst e) = true ∧ well_formed (snd e) = true) entries.
Proof.
  cbn [well_formed]. rewrite andb_true_iff, bool_decide_eq_true, forallb_forall.
  rewrite Forall_forall. split.
  - intros [Hnd Hall]. split; [done|]. intros e He%list_elem_of_In.
    by apply andb_true_iff, Hall.
  - intros [Hnd Hall]. split; [done|]. intros e He%list_elem_of_In.
    by apply andb_true_iff, Hall.
Qed.

(** Every relative name found is a chain of valid names whose last one ends
    with the extension. *)
Lemma rel_starstar_shape ext n : ∀ r,
  well_formed n = true → r ∈ rel_starstar n ext →
  Forall (λ x, valid_name x = true) r
  ∧ ∃ name, last r = Some name ∧ PyStr.endswith name ext = true.
Proof.
  induction n as [|entries IH] using node_nested_ind; intros r Hwf Hr.
  - by apply not_elem_of_nil in Hr.
  - apply well_formed_Dir in Hwf as [_ Hwf].
    rewrite Forall_forall in IH, Hwf.
    cbn [rel_starstar] in Hr. apply elem_of_app in Hr as [Hr | Hr].
    + apply elem_of_rel_star in Hr as (name & kind & Hin & Hext & ->).
      destruct (Hwf _ Hin) as [Hname _]. split; [by repeat constructor|].
      by exists name.
    + apply elem_of_rel_below in Hr as (name & sub & r' & Hin & Hr' & ->).
      destruct (Hwf _ Hin) as [Hname Hsub].
      destruct (IH _ Hin r' Hsub Hr') as (Hvalid & last_name & Hlast & Hext).
      split; [by constructor|]. exists last_name. split; [|done].
      destruct r' as [|x r']; [done|]. by rewrite last_cons_cons.
Qed.

Lemma last_Some_nonempty {A} (l : list A) (x : A) : last l = Some x → l ≠ [].
Proof. by intros H ->. Qed.

Lemma NoDup_flat_map {A B} (f : A → list B) (l : list A) :
  (∀ x1 x2 y, x1 ∈ l → x2 ∈ l → y ∈ f x1 → y ∈ f x2 → x1 = x2) →
  (∀ x, x ∈ l → NoDup (f x)) → NoDup l → NoDup (flat_map f l).
Proof.
  intros Hinj Hf Hl. replace (flat_map f l) with (l ≫= f); [by apply NoDup_bind|].
  clear. induction l as [|x l IH]; [done|]. csimpl. by rewrite IH.
Qed.

Lemma rel_starstar_NoDup ext n :
  well_formed n = true → NoDup (rel_starstar n ext).
Proof.
  induction n as [|entries IH] using node_nested_ind; intros Hwf; [constructor|].
  pose proof Hwf as Hwf0.
  apply well_formed_Dir in Hwf as [Hnames Hwf].
  rewrite Forall_forall in IH, Hwf.
  cbn [rel_starstar]. apply NoDup_app. split_and!.
  - unfold rel_star. apply (NoDup_fmap_2_strong (λ e : string * node, [fst e])).
    + intros e1 e2 [_ H1]%list_elem_of_filter [_ H2]%list_elem_of_filter Heq.
      injection Heq as Heq. by apply (NoDup_fmap_elem_inj fst entries).
    + apply NoDup_filter. by apply (NoDup_fmap_1 fst).
  - intros r Hr Hr'.
    apply elem_of_rel_star in Hr as (name & kind & _ & _ & ->).
    apply elem_of_rel_below in Hr' as (name' & sub & r' & Hin & Hr' & Heq).
    injection Heq as _ <-. destruct (Hwf _ Hin) as [_ Hsub].
    by destruct (rel_starstar_shape ext sub [] Hsub Hr') as (_ & ? & ? & _).
  - apply NoDup_flat_map; [| |by apply (NoDup_fmap_1 fst)].
    + intros e1 e2 r H1 H2 Hr1 Hr2.
      apply list_elem_of_In, in_map_iff in Hr1 as (r1 & <- & _).
      apply list_elem_of_In, in_map_iff in Hr2 as (r2 & Heq & _).
      injection Heq as Heq _. by apply (NoDup_fmap_elem_inj fst entries).
    + intros e He. apply (NoDup_fmap_2_strong (cons (fst e))).
      * intros r1 r2 _ _ Heq. by injection Heq.
      * destruct (Hwf _ He) as [_ Hsub]. by apply IH.
Qed.

Lemma NoDup_extensions : NoDup extensions.
Proof. unfold extensions. repeat (constructor; [set_solver|]). constructor. Qed.

Lemma rel_scan_found entries recursive r :
  r ∈ rel_scan entries recursive →
  ∃ ext, ext ∈ extensions ∧ r ∈ rel_starstar (Dir entries) ext.
Proof.
  unfold rel_scan. rewrite list_elem_of_In, in_flat_map.
  intros (ext & Hext%list_elem_of_In & Hr%list_elem_of_In). exists ext. split; [done|].
  destruct recursive; [done|]. cbn [rel_starstar]. apply elem_of_app. by left.
Qed.

Lemma rel_scan_shape entries recursive r :
  well_formed (Dir entries) = true → r ∈ rel_scan entries recursive →
  r ≠ [] ∧ Forall (λ x, valid_name x = true) r.
Proof.
  intros Hwf (ext & _ & Hr)%rel_scan_found.
  destruct (rel_starstar_shape ext _ r Hwf Hr) as (Hvalid & name & Hlast & _).
  split; [by eapply last_Some_nonempty | done].
Qed.

Lemma rel_scan_NoDup entries recursive :
  well_formed (Dir entries) = true → NoDup (rel_scan entries recursive).
Proof.
  intros Hwf. unfold rel_scan. apply NoDup_flat_map; [| |apply NoDup_extensions].
  - intros e1 e2 r H1 H2 Hr1 Hr2.
    assert (Hin : ∀ e, r ∈ (if recursive then rel_starstar (Dir entries) e
                            else rel_star entries e) →
                       r ∈ rel_starstar (Dir entries) e).
    { intros e He. destruct recursive; [done|].
      cbn [rel_starstar]. apply elem_of_app. by left. }
    destruct (rel_starstar_shape e1 _ r Hwf (Hin _ Hr1)) as (_ & n1 & Hl1 & He1).
    destruct (rel_starstar_shape e2 _ r Hwf (Hin _ Hr2)) as (_ & n2 & Hl2 & He2).
    assert (n1 = n2) as -> by congruence.
    by apply (one_extension_per_name n2).
  - intros ext _. pose proof (rel_starstar_NoDup ext _ Hwf) as Hnd.
    destruct recursive; [done|].
    cbn [rel_starstar] in Hnd. by apply NoDup_app in Hnd as [? _].
Qed.

Lemma glob_pattern disk (base : Pathlib.Path) entries (recursive : bool) ext :
  disk base = Some (Dir entries) → ext ∈ extensions →
  glob disk base ((if recursive then "**/*" else "*") +:+ ext)
  = map (under base) (if recursive then rel_starstar (Dir entries) ext
                      else rel_star entries ext).
Proof.
  intros Hdisk Hext. unfold glob. rewrite Hdisk. destruct recursive.
  - rewrite startswith_app.
    change 4 with (String.length "**/*"). rewrite drop_length_app.
    apply glob_starstar_rel.
  - replace (PyStr.startswith ("*" +:+ ext) "**/*") with false.
    2:{ unfold extensions in Hext.
        repeat (apply elem_of_cons in Hext as [-> | Hext]; [done|]).
        by apply not_elem_of_nil in Hext. }
    rewrite startswith_app.
    change 1 with (String.length "*"). rewrite drop_length_app.
    apply glob_star_rel.
Qed.

(** A directory scan, as relative names under the directory. *)
Lemma collect_paths_rel disk input_path entries recursive :
  disk (Pathlib.Path_of input_path) = Some (Dir entries) →
  collect_paths disk (Str input_path) recursive
  = map (under (Pathlib.Path_of input_path)) (rel_scan entries recursive).
Proof.
  intros Hdisk. unfold collect_paths, is_dir, rel_scan. rewrite Hdisk.
  assert (Hall : ∀ exts, Forall (λ e, e ∈ extensions) exts →
            flat_map (λ ext, glob disk (Pathlib.Path_of input_path)
                               ((if recursive then "**/*" else "*") +:+ ext)) exts
            = map (under (Pathlib.Path_of input_path))
                  (flat_map (λ ext, if recursive then rel_starstar (Dir entries) ext
                                    else rel_star entries ext) exts)).
  { induction 1 as [|e exts He _ IHexts]; [done|].
    cbn [flat_map]. by rewrite map_app, IHexts, (glob_pattern _ _ entries). }
  apply Hall. by apply Forall_forall.
Qed.

(** The keys of a scan of a well-formed directory are pairwise distinct. *)
Lemma scan_keys_NoDup disk input_path entries recursive :
  disk (Pathlib.Path_of input_path) = Some (Dir entries) →
  well_formed (Dir entries) = true →
  NoDup (Pathlib.str <$> collect_paths disk (Str input_path) recursive).
Proof.
  intros Hdisk Hwf. rewrite (collect_paths_rel _ _ entries) by done.
  change (map ?f ?l) with (f <$> l). rewrite <- list_fmap_compose.
  apply NoDup_fmap_2_strong; [|by apply rel_scan_NoDup].
  intros r1 r2 H1 H2 Heq. simpl in Heq.
  destruct (rel_scan_shape _ _ _ Hwf H1) as [? ?].
  destruct (rel_scan_shape _ _ _ Hwf H2) as [? ?].
  by eapply str_under_inj.
Qed.

(** X17 ([process_batch], the scan of lines 222-229; [Path.glob]).  When the
    input is a directory of a well-formed tree (in every directory the names
    are non-empty, hold no slash and are pairwise distinct), the scan lists no
    path twice, recursive or not: the discovered paths are pairwise distinct,
    and so are their strings, the keys of the report.  No name is collected
    for two of the five extensions, and no entry is reached twice. *)
Theorem directory_scan_lists_no_path_twice
    (disk : Pathlib.Path → option node) (input_path : string)
    (entries : list (string * node)) (recursive : bool) :
  disk (Pathlib.Path_of input_path) = Some (Dir entries) →
  well_formed (Dir entries) = true →
  NoDup (collect_paths disk (Str input_path) recursive)
  ∧ NoDup (Pathlib.str <$> collect_paths disk (Str input_path) recursive).
Proof.
  intros Hdisk Hwf.
  pose proof (scan_keys_NoDup disk input_path entries recursive Hdisk Hwf) as Hnd.
  split; [|done]. by apply (NoDup_fmap_1 Pathlib.str).
Qed.

Lemma directory_scan_lists_no_path_twice_witness :
  NoDup (collect_paths Sample.disk (Str "scans") true)
  ∧ NoDup (Pathlib.str <$> collect_paths Sample.disk (Str "scans") true).
Proof.
  apply (directory_scan_lists_no_path_twice Sample.disk "scans"
           [ ("a.png", File); ("b.jpeg", File); ("notes.txt", File);
             ("old.png", Dir [("c.jpg", File)]);
             ("sub", Dir [("d.tiff", File); ("e.pdf.bak", File)]) ] true).
  - reflexivity.
  - vm_compute. reflexivity.
Defined.

(** X18 ([process_batch], lines 222-261).  For a directory of a well-formed
    tree the report accounts for every discovered path: [results] has one
    entry per path, [successful] equals [total] and [failed] is 0, whatever
    the calls return and in whatever order they finish. *)
Theorem directory_scan_counts_every_path
    (self : OCRProcessor) (disk : Pathlib.Path → option node)
    (task_env : nat → Env) (task_world : nat → World) (finished : nat → nat)
    (input_path : string) (entries : list (string * node))
    (format_type : string) (recursive preprocess : bool) :
  disk (Pathlib.Path_of input_path) = Some (Dir entries) →
  well_formed (Dir entries) = true →
  let report := process_batch self disk task_env task_world finished
                  (Str input_path) format_type recursive preprocess in
  size (results report) = length (collect_paths disk (Str input_path) recursive)
  ∧ successful (statistics report) = total (statistics report)
  ∧ failed (statistics report) = 0.
Proof.
  intros Hdisk Hwf report. subst report.
  pose proof (scan_keys_NoDup disk input_path entries recursive Hdisk Hwf) as Hnd.
  apply length_remove_dups_NoDup in Hnd. rewrite length_fmap in Hnd.
  pose proof (process_batch_counts self disk task_env task_world finished
                (Str input_path) format_type recursive preprocess) as Hcounts.
  pose proof (process_batch_report self disk task_env task_world finished
                (Str input_path) format_type recursive preprocess) as Hreport.
  cbv zeta in Hcounts, Hreport.
  destruct Hcounts as (Htotal & Hsucc & Hfailed).
  destruct Hreport as (_ & _ & Hstats).
  split_and!.
  - rewrite <- Hnd, <- Hsucc, Hstats. done.
  - by rewrite Htotal, Hsucc.
  - done.
Qed.

Lemma directory_scan_counts_every_path_witness :
  let report := sample_batch Sample.fails_500 (Str "scans") "text" true true in
  size (results report) = length (collect_paths Sample.disk (Str "scans") true)
  ∧ successful (statistics report) = total (statistics report)
  ∧ failed (statistics report) = 0.
Proof.
  apply (directory_scan_counts_every_path Sample.processor Sample.disk
           (λ _, Sample.env Sample.fails_500) (λ _, Sample.world) (λ i, i) "scans"
           [ ("a.png", File); ("b.jpeg", File); ("notes.txt", File);
             ("old.png", Dir [("c.jpg", File)]);
             ("sub", Dir [("d.tiff", File); ("e.pdf.bak", File)]) ]
           "text" true true).
  - reflexivity.
  - vm_compute. reflexivity.
Defined.

(** X19 ([process_batch], lines 223-261).  When the input is one string that
    is not a directory (a file, or nothing on disk at all), the report is
    exactly one result, keyed by [str(Path(input_path))], holding what
    [process_image] returns for that string; [errors] is empty and the
    statistics are 1, 1, 0.  No extension filter applies and [recursive] is
    ignored. *)
Theorem single_path_gives_one_result
    (self : OCRProcessor) (disk : Pathlib.Path → option node)
    (task_env : nat → Env) (task_world : nat → World) (finished : nat → nat)
    (input_path format_type : string) (recursive preprocess : bool) :
  is_dir disk (Pathlib.Path_of input_path) = false →
  ∃ answer,
    fst (process_image (task_env 0) self (Pathlib.str (Pathlib.Path_of input_path))
                       format_type preprocess (task_world 0)) = Returned answer
    ∧ process_batch self disk task_env task_world finished
        (Str input_path) format_type recursive preprocess
      = mkBatchReport {[ Pathlib.str (Pathlib.Path_of input_path) := answer ]} ∅
                      (mkStatistics 1 1 0).
Proof.
  intros Hdir.
  destruct (process_image_returns (task_env 0) self
              (Pathlib.str (Pathlib.Path_of input_path)) format_type preprocess
              (task_world 0)) as [answer Hanswer].
  exists answer. split; [done|].
  assert (Hpaths : collect_paths disk (Str input_path) recursive
                   = [Pathlib.Path_of input_path]).
  { unfold collect_paths. by rewrite Hdir. }
  pose proof (batch_own_result self disk task_env task_world finished
                (Str input_path) format_type recursive preprocess 0
                (Pathlib.Path_of input_path) answer) as Hown.
  pose proof (process_batch_report self disk task_env task_world finished
                (Str input_path) format_type recursive preprocess) as Hreport.
  cbv zeta in Hreport. rewrite Hpaths in Hown, Hreport.
  destruct Hreport as (Herrors & Hdom & Hstats).
  specialize (Hown ltac:(repeat constructor; set_solver) eq_refl Hanswer).
  destruct (process_batch _ _ _ _ _ _ _ _ _) as [R Er stats]. simpl in *. subst Er stats.
  assert (Hdom' : dom R = {[Pathlib.str (Pathlib.Path_of input_path)]}) by set_solver.
  apply dom_singleton_inv_L in Hdom' as [v ->].
  rewrite lookup_singleton_eq in Hown. injection Hown as ->.
  by rewrite map_size_singleton.
Qed.

Lemma single_path_gives_one_result_witness :
  ∃ answer,
    fst (process_image (Sample.env Sample.fails_500) Sample.processor
           (Pathlib.str (Pathlib.Path_of "missing.png")) "text" true Sample.world)
    = Returned answer
    ∧ process_batch Sample.processor Sample.disk
        (λ _, Sample.env Sample.fails_500) (λ _, Sample.world) (λ i, i)
        (Str "missing.png") "text" true true
      = mkBatchReport {[ Pathlib.str (Pathlib.Path_of "missing.png") := answer ]} ∅
                      (mkStatistics 1 1 0).
Proof.
  apply (single_path_gives_one_result Sample.processor Sample.disk
           (λ _, Sample.env Sample.fails_500) (λ _, Sample.world) (λ i, i)
           "missing.png" "text" true true).
  reflexivity.
Defined.
